(** * URL Dropper: the URL-to-note pipeline

    A shallow embedding of the drop handler of the URL Dropper plugin
    ([src/main.tsx], the single-URL variant, and the second, multi-URL
    variant of the same file) and the properties of its title extraction,
    file-name sanitising, template rendering, note placement, error
    reporting and in-flight counting.

    JavaScript strings are sequences of UTF-16 code units; they are modelled
    as lists of code units, each an [N].  Regular expressions of the source
    carry no [u] flag, so they too work on code units. *)

From Equations Require Import Equations.
From Stdlib Require Import String Ascii.
From Stdlib Require Import List Arith NArith ZArith Lia Bool.
From Stdlib Require DecimalString.
Import ListNotations.

(** ** Strings *)

Module JsString.

Definition char := N.
Definition jsstring := list char.

(** A source literal, given as its ASCII text. *)
Definition str (s : string) : jsstring :=
  map N_of_ascii (list_ascii_of_string s).
Arguments str s%_string_scope.

Definition hyphen : char := 45%N.     (* '-' *)
Definition emDash : char := 8212%N.   (* U+2014 *)
Definition slash : char := 47%N.      (* '/' *)
Definition newline : char := 10%N.    (* '\n' *)
Definition dollar : char := 36%N.     (* '$' *)
Definition openBrace : char := 123%N. (* '{' *)

Definition inRange (lo hi c : char) : bool := (lo <=? c)%N && (c <=? hi)%N.
Arguments inRange (lo hi c)%_N_scope.

(** The class [\w] without the [u] and [i] flags: [A-Za-z0-9_]. *)
Definition isWord (c : char) : bool :=
  inRange 65 90 c || inRange 97 122 c || inRange 48 57 c || (c =? 95)%N.

(** The class [\s]: WhiteSpace and LineTerminator of ECMAScript, which is
    also what [String.prototype.trim] removes. *)
Definition isSpace (c : char) : bool :=
  inRange 9 13 c || (c =? 32)%N || (c =? 160)%N || (c =? 5760)%N
  || inRange 8192 8202 c || (c =? 8232)%N || (c =? 8233)%N
  || (c =? 8239)%N || (c =? 8287)%N || (c =? 12288)%N || (c =? 65279)%N.

(** A string is truthy when it is not empty. *)
Definition truthy (s : jsstring) : bool :=
  match s with [] => false | _ :: _ => true end.

Fixpoint dropWhile (p : char -> bool) (s : jsstring) : jsstring :=
  match s with
  | [] => []
  | c :: t => if p c then dropWhile p t else s
  end.

(** [String.prototype.trim]. *)
Definition trimStart (s : jsstring) : jsstring := dropWhile isSpace s.
Fixpoint trimEnd (s : jsstring) : jsstring :=
  match s with
  | [] => []
  | c :: t =>
      match trimEnd t with
      | [] => if isSpace c then [] else [c]
      | t' => c :: t'
      end
  end.
Definition trim (s : jsstring) : jsstring := trimEnd (trimStart s).

(** [String.prototype.toLowerCase] on the code units the sanitiser hands
    to it.  Those are word characters, hyphens and em-dashes only (lemma
    [extended_alphabet] below), and on them the Unicode lower-casing is
    the ASCII one. *)
Definition lowerChar (c : char) : char :=
  if inRange 65 90 c then (c + 32)%N else c.
Definition toLowerCase (s : jsstring) : jsstring := map lowerChar s.

Fixpoint startsWith (p s : jsstring) : bool :=
  match p, s with
  | [], _ => true
  | _ :: _, [] => false
  | a :: p', b :: s' => (a =? b)%N && startsWith p' s'
  end.

(** [String.prototype.indexOf]: the first position at which [p] occurs. *)
Fixpoint indexOf (p s : jsstring) : option nat :=
  if startsWith p s then Some 0
  else match s with
       | [] => None
       | _ :: t => option_map S (indexOf p t)
       end.

(** [String.prototype.includes]. *)
Definition includes (p s : jsstring) : bool :=
  match indexOf p s with Some _ => true | None => false end.

(** [String.prototype.split] with a one-character separator; the result
    always has at least one element. *)
Fixpoint split (sep : char) (s : jsstring) : list jsstring :=
  match s with
  | [] => [[]]
  | c :: t =>
      if (c =? sep)%N then [] :: split sep t
      else match split sep t with
           | seg :: segs => (c :: seg) :: segs
           | [] => [[c]]
           end
  end.

(** [Array.prototype.pop]: the last element, [undefined] on an empty array. *)
Fixpoint pop (a : list jsstring) : option jsstring :=
  match a with
  | [] => None
  | [x] => Some x
  | _ :: t => pop t
  end.

End JsString.
Import JsString.

(** ** Filename Sanitizer *)

Module Sanitizer.

(** [s.replace(/[^\w\s-]/g, '')]: every code unit outside the class is a
    match of length one and is replaced by nothing. *)
Definition stripMinimal (s : jsstring) : jsstring :=
  filter (fun c => isWord c || isSpace c || (c =? hyphen)%N) s.

(** [s.replace(/[^\w\s—]/g, '')]. *)
Definition stripExtended (s : jsstring) : jsstring :=
  filter (fun c => isWord c || isSpace c || (c =? emDash)%N) s.

(** [s.replace(/\s+/g, '-')]: at a white-space code unit the greedy match
    takes the whole run; elsewhere there is no match and the code unit is
    copied. *)
Equations? collapseSpaces (s : jsstring) : jsstring by wf (length s) lt :=
  collapseSpaces [] := [];
  collapseSpaces (c :: t) with isSpace c => {
    | true := hyphen :: collapseSpaces (dropWhile isSpace t);
    | false := c :: collapseSpaces t }.
Proof.
  clear. induction t as [|d t IH]; simpl; [lia|].
  destruct (isSpace d); simpl in *; lia.
Qed.

(** The match of [/\s*-\s*/] that starts at the head of [s], if any: the
    white-space run at the head must be followed by a hyphen (giving back
    white space never helps, the next code unit would be white space), and
    the match then takes the white-space run after it.  The result is
    what is left of [s] after the match. *)
Definition matchDash (s : jsstring) : option jsstring :=
  match dropWhile isSpace s with
  | c :: r => if (c =? hyphen)%N then Some (dropWhile isSpace r) else None
  | [] => None
  end.

(** A value together with the equation that names it, for the measure. *)
Definition inspect {A : Type} (a : A) : {b : A | a = b} := exist _ a eq_refl.

(** [s.replace(/\s*-\s*/g, '—')]: the leftmost match is replaced, the scan
    resumes behind it; where no match starts one code unit is copied. *)
Equations? normalizeDashes (s : jsstring) : jsstring by wf (length s) lt :=
  normalizeDashes [] := [];
  normalizeDashes (c :: t) with inspect (matchDash (c :: t)) => {
    | exist _ (Some rest) _ := emDash :: normalizeDashes rest;
    | exist _ None _ := c :: normalizeDashes t }.
Proof.
  clear normalizeDashes. unfold matchDash in e.
  assert (D : forall u, length (dropWhile isSpace u) <= length u).
  { induction u as [|d u IH]; simpl; [lia|].
    destruct (isSpace d); simpl; lia. }
  pose proof (D (c :: t)) as D1.
  destruct (dropWhile isSpace (c :: t)) as [|h r]; [discriminate|].
  destruct (h =? hyphen)%N; [|discriminate].
  injection e as <-. pose proof (D r). simpl in *. lia.
Qed.

(** The minimal variant ([src/main.tsx]). *)
Definition sanitizeFileName_minimal (fileName : jsstring) : jsstring :=
  collapseSpaces (trim (stripMinimal fileName)).

(** The extended variant (the multi-URL file). *)
Definition sanitizeFileName (fileName : jsstring) : jsstring :=
  toLowerCase
    (collapseSpaces (trim (stripExtended (normalizeDashes fileName)))).

End Sanitizer.
Import Sanitizer.

(** ** Title Extractor *)

Module TitleExtractor.

(** The two properties of a [URL] object that the code reads. *)
Record URL := { pathname : jsstring; hostname : jsstring }.

(** [urlObj.pathname.split('/').pop() || urlObj.hostname] *)
Definition fallbackTitle (urlObj : URL) : jsstring :=
  match pop (split slash (pathname urlObj)) with
  | Some segment => if truthy segment then segment else hostname urlObj
  | None => hostname urlObj
  end.

(** The title of a fetched page.  [titleText] is
    [doc.querySelector('title')?.textContent] of the parsed document,
    [None] when the document has no title element.  [newURL] is what
    [new URL(url)] gives, [None] when it throws (an unparseable URL); the
    code looks at it only when the page gives no title, and the exception
    then leaves the extraction without a result. *)
Definition extractTitle (titleText : option jsstring) (newURL : option URL)
  : option jsstring :=
  let title :=
    match titleText with
    | Some text => if truthy text then text else []
    | None => []
    end in
  if truthy title then Some title
  else match newURL with
       | Some urlObj => Some (fallbackTitle urlObj)
       | None => None
       end.

End TitleExtractor.
Import TitleExtractor.

(** ** Template Renderer *)

Module TemplateRenderer.

(** [GetSubstitution] of ECMAScript for a string pattern (no captures):
    in the replacement text [$$] stands for a dollar sign, [$&] for the
    matched text, [$`] for the text before the match and [$'] for the text
    after it; every other code unit, a dollar sign included, is copied. *)
Fixpoint getSubstitution (matched before after replacement : jsstring)
  : jsstring :=
  match replacement with
  | [] => []
  | c :: t =>
      if (c =? dollar)%N then
        match t with
        | d :: t' =>
            if (d =? dollar)%N then
              dollar :: getSubstitution matched before after t'
            else if (d =? 38)%N then
              matched ++ getSubstitution matched before after t'
            else if (d =? 96)%N then
              before ++ getSubstitution matched before after t'
            else if (d =? 39)%N then
              after ++ getSubstitution matched before after t'
            else c :: getSubstitution matched before after t
        | [] => [c]
        end
      else c :: getSubstitution matched before after t
  end.

(** [s.replace(searchValue, replaceValue)] with a string pattern: only the
    first occurrence is replaced. *)
Definition replace (searchValue replaceValue s : jsstring) : jsstring :=
  match indexOf searchValue s with
  | None => s
  | Some pos =>
      let before := firstn pos s in
      let after := skipn (pos + length searchValue) s in
      before ++ getSubstitution searchValue before after replaceValue ++ after
  end.

Inductive placeholder := FrontmatterKey | Url | Title.

Definition placeholderText (p : placeholder) : jsstring :=
  match p with
  | FrontmatterKey => str "{{frontmatterKey}}"
  | Url => str "{{url}}"
  | Title => str "{{title}}"
  end.

(** [template.replace('{{frontmatterKey}}', frontmatterKey)
            .replace('{{url}}', url).replace('{{title}}', title)] *)
Definition renderTemplate (template frontmatterKey url title : jsstring)
  : jsstring :=
  replace (placeholderText Title) title
    (replace (placeholderText Url) url
       (replace (placeholderText FrontmatterKey) frontmatterKey template)).

(** The replacement of the first occurrence by the value as it stands,
    which is what the specification calls a literal substitution. *)
Definition spec_replaceFirst (searchValue value s : jsstring) : jsstring :=
  match indexOf searchValue s with
  | None => s
  | Some pos => firstn pos s ++ value ++ skipn (pos + length searchValue) s
  end.

Definition spec_renderTemplate (template frontmatterKey url title : jsstring)
  : jsstring :=
  spec_replaceFirst (placeholderText Title) title
    (spec_replaceFirst (placeholderText Url) url
       (spec_replaceFirst (placeholderText FrontmatterKey) frontmatterKey
          template)).

(** The number of positions at which [p] occurs in [s]. *)
Fixpoint occurrences (p s : jsstring) : nat :=
  (if startsWith p s then 1 else 0)
  + match s with
    | [] => 0
    | _ :: t => occurrences p t
    end.

(** A template written as its pieces: plain text and placeholders. *)
Inductive piece := Text (t : jsstring) | Hole (p : placeholder).

Definition pieceText (x : piece) : jsstring :=
  match x with
  | Text t => t
  | Hole p => placeholderText p
  end.

Definition flatten (pieces : list piece) : jsstring :=
  flat_map pieceText pieces.

Definition holes (pieces : list piece) : list placeholder :=
  flat_map (fun x => match x with Hole p => [p] | Text _ => [] end) pieces.

Definition texts (pieces : list piece) : list jsstring :=
  flat_map (fun x => match x with Text t => [t] | Hole _ => [] end) pieces.

Definition lacks (c : char) (s : jsstring) : Prop :=
  Forall (fun d => d <> c) s.

(** A template whose only opening braces are those of its placeholders,
    with no placeholder used twice. *)
Definition tidyTemplate (pieces : list piece) : Prop :=
  Forall (lacks openBrace) (texts pieces) /\ NoDup (holes pieces).

(** A value with no opening brace and no dollar sign in it. *)
Definition plainValue (v : jsstring) : Prop :=
  lacks openBrace v /\ lacks dollar v.

Definition placeholder_eqb (p q : placeholder) : bool :=
  match p, q with
  | FrontmatterKey, FrontmatterKey | Url, Url | Title, Title => true
  | _, _ => false
  end.

(** The first hole for [p] filled with the value. *)
Fixpoint fill (p : placeholder) (v : jsstring) (pieces : list piece)
  : list piece :=
  match pieces with
  | [] => []
  | Text t :: rest => Text t :: fill p v rest
  | Hole q :: rest =>
      if placeholder_eqb p q then Text v :: rest else Hole q :: fill p v rest
  end.

End TemplateRenderer.
Import TemplateRenderer.

(** ** Settings and the host application *)

Module Settings.

Inductive NoteLocation := LocationDefault | LocationVault | LocationCustom.

(** [UrlDropperSettings].  The single-URL variant has no [openNewNote]
    and never reads it. *)
Record UrlDropperSettings := {
  template : jsstring;
  frontmatterKey : jsstring;
  noteLocation : NoteLocation;
  customNoteLocation : jsstring;
  openNewNote : bool
}.

(** [DEFAULT_SETTINGS] *)
Definition DEFAULT_SETTINGS : UrlDropperSettings := {|
  template :=
    str "---" ++ [newline] ++ str "{{frontmatterKey}}: {{url}}" ++ [newline]
    ++ str "---" ++ [newline; newline] ++ str "# {{title}}"
    ++ [newline; newline];
  frontmatterKey := str "url";
  noteLocation := LocationDefault;
  customNoteLocation := [];
  openNewNote := false
|}.

(** The default template, piece by piece. *)
Definition defaultTemplatePieces : list piece :=
  [Text (str "---" ++ [newline]); Hole FrontmatterKey; Text (str ": ");
   Hole Url; Text ([newline] ++ str "---" ++ [newline; newline] ++ str "# ");
   Hole Title; Text [newline; newline]].

(** What the pipeline asks of the browser and of the host application.
    [titleTextOf html] is [doc.querySelector('title')?.textContent] of the
    document [DOMParser] makes of [html]; [newURL url] is the object
    [new URL(url)] gives, [None] when it throws; [normalizePath] is the
    host's path normaliser; [getNewFileParent] is the path of the folder
    [fileManager.getNewFileParent("")] returns, [None] when it returns
    nothing. *)
Record Host := {
  titleTextOf : jsstring -> option jsstring;
  newURL : jsstring -> option URL;
  normalizePath : jsstring -> jsstring;
  getNewFileParent : option jsstring
}.

End Settings.
Import Settings.

(** ** Note Placer *)

Module NotePlacer.

(** [getNotePath], the same in both variants. *)
Definition getNotePath (host : Host) (settings : UrlDropperSettings)
  (fileName : jsstring) : jsstring :=
  match noteLocation settings with
  | LocationVault => fileName
  | LocationCustom =>
      normalizePath host (customNoteLocation settings ++ [slash] ++ fileName)
  | LocationDefault =>
      match getNewFileParent host with
      | Some path => normalizePath host (path ++ [slash] ++ fileName)
      | None => fileName
      end
  end.

(** Paths that a path normaliser has nothing to do on: segments that are
    not empty, made of word characters, hyphens, em-dashes and dots. *)
Definition plainSegment (segment : jsstring) : bool :=
  truthy segment
  && forallb (fun c => isWord c || (c =? hyphen)%N || (c =? emDash)%N
                       || (c =? 46)%N) segment.

Definition plainPath (path : jsstring) : bool :=
  forallb plainSegment (split slash path).

(** A path normaliser of that kind, for use as a host: back slashes count
    as separators, empty segments go (so do runs of separators and the
    separators at both ends), and a path with nothing left is the root. *)
Fixpoint join (segments : list jsstring) : jsstring :=
  match segments with
  | [] => []
  | [segment] => segment
  | segment :: more => segment ++ slash :: join more
  end.

Definition separatorNormalizer (path : jsstring) : jsstring :=
  match filter truthy
          (split slash (map (fun c => if (c =? 92)%N then slash else c) path))
  with
  | [] => [slash]
  | segments => join segments
  end.

Fixpoint sameString (a b : jsstring) : bool :=
  match a, b with
  | [], [] => true
  | c :: a', d :: b' => (c =? d)%N && sameString a' b'
  | _, _ => false
  end.

(** A host for the examples: the page and the URLs of the scenarios of
    the specification, as the browser reads them, the separator normaliser
    and no folder for new files. *)
Definition exampleHost : Host := {|
  titleTextOf := fun html =>
    if sameString html (str "<title>My Post Title</title>")
    then Some (str "My Post Title") else None;
  newURL := fun url =>
    if sameString url (str "https://example.com/blog/my-post") then
      Some {| pathname := str "/blog/my-post"; hostname := str "example.com" |}
    else if sameString url (str "https://example.com/articles/") then
      Some {| pathname := str "/articles/"; hostname := str "example.com" |}
    else if sameString url (str "file:///") then
      Some {| pathname := str "/"; hostname := [] |}
    else None;
  normalizePath := separatorNormalizer;
  getNewFileParent := None
|}.

End NotePlacer.
Import NotePlacer.

(** ** Proxy Fetcher: the request *)

Module Fetcher.

(** The code units [encodeURIComponent] leaves as they are:
    [A-Za-z0-9] and [-_.!~*'()]. *)
Definition isUnreserved (c : char) : bool :=
  inRange 65 90 c || inRange 97 122 c || inRange 48 57 c
  || existsb (N.eqb c) [45; 95; 46; 33; 126; 42; 39; 40; 41]%N.

Definition hexDigit (n : N) : char :=
  if (n <? 10)%N then (48 + n)%N else (55 + n)%N.

Definition percentEncode (byte : N) : jsstring :=
  [37%N; hexDigit (byte / 16); hexDigit (byte mod 16)].

Definition utf8 (cp : N) : list N :=
  if (cp <? 128)%N then [cp]
  else if (cp <? 2048)%N then [192 + cp / 64; 128 + cp mod 64]%N
  else if (cp <? 65536)%N then
    [224 + cp / 4096; 128 + (cp / 64) mod 64; 128 + cp mod 64]%N
  else
    [240 + cp / 262144; 128 + (cp / 4096) mod 64; 128 + (cp / 64) mod 64;
     128 + cp mod 64]%N.

Definition escapeCodePoint (cp : N) : jsstring := flat_map percentEncode (utf8 cp).

(** [encodeURIComponent]: [None] is the [URIError] it throws on a
    surrogate code unit that has no partner. *)
Fixpoint encodeURIComponent (s : jsstring) : option jsstring :=
  match s with
  | [] => Some []
  | c :: t =>
      if isUnreserved c then option_map (cons c) (encodeURIComponent t)
      else if inRange 56320 57343 c then None
      else if inRange 55296 56319 c then
        match t with
        | d :: t' =>
            if inRange 56320 57343 d then
              option_map
                (app (escapeCodePoint ((c - 55296) * 1024 + (d - 56320) + 65536)))
                (encodeURIComponent t')
            else None
        | [] => None
        end
      else option_map (app (escapeCodePoint c)) (encodeURIComponent t)
  end.

Definition proxyEndpoint : jsstring := str "https://api.allorigins.win/get?url=".

End Fetcher.
Import Fetcher.

(** ** The conversion pipeline

    [processDroppedUrl] is an async function: it runs until it has to wait
    for a promise, and goes on when that promise settles.  A conversion is
    modelled by the point at which it waits; an [event] is the settling of
    the promise it waits for, and [resume] is the code from there to the
    next wait.  Conversions of several drops interleave at those points
    and nowhere else. *)

Module Pipeline.

(** A thrown value, as far as the handlers look at it: an [Error] with its
    message, or something that is no [Error]. *)
Inductive thrown := ErrorObject (message : jsstring) | NotAnError.

(** What a conversion does to the outside. *)
Inductive effect :=
| Fetch (request : jsstring)
| VaultCreate (filePath content : jsstring)
| OpenFile (filePath : jsstring)
| Notice (message : jsstring) (duration : option N)
| ConsoleError (label : jsstring) (error : thrown).

Inductive outcome (A : Type) := Resolved (value : A) | Rejected (error : thrown).
Arguments Resolved {A} value.
Arguments Rejected {A} error.

(** The promises a conversion waits for.  The value of [response.json()]
    is [Some html], [html] being [data.contents] as [DOMParser] reads it, or
    [None] for a [data] of which no property can be read. [vault.create]
    resolves to the new file, of which only the truthiness is looked at. *)
Inductive event :=
| FetchSettled (result : outcome unit)
| JsonSettled (result : outcome (option jsstring))
| CreateSettled (result : outcome bool)
| OpenSettled (result : outcome unit).

Inductive task :=
| AwaitFetch (url : jsstring)
| AwaitJson (url : jsstring)
| AwaitCreate (url filePath : jsstring)
| AwaitOpen (url filePath : jsstring)
| Settled.

Definition isSettled (t : task) : bool :=
  match t with Settled => true | _ => false end.

(** One run of a conversion between two waits: where it waits next, what
    it did, and the updater functions it passed to [setProcessingCount]. *)
Record reaction := {
  next : task;
  emitted : list effect;
  updates : list (Z -> Z)
}.

(** The drop zone component: every value [processingCount] has had, the
    newest first (React applies the updater functions in the order they
    were queued), the conversions started so far and what they did. *)
Record Component := {
  history : list Z;
  tasks : list task;
  log : list effect
}.

(** [useState(0)] *)
Definition mounted : Component := {| history := [0%Z]; tasks := []; log := [] |}.

Definition processingCount (c : Component) : Z := hd 0%Z (history c).

Definition setProcessingCount (values : list Z) (updater : Z -> Z) : list Z :=
  updater (hd 0%Z values) :: values.

Fixpoint setNth (i : nat) (t : task) (ts : list task) : list task :=
  match ts, i with
  | [], _ => []
  | _ :: rest, O => t :: rest
  | u :: rest, S j => u :: setNth j t rest
  end.

(** A call of [processDroppedUrl], up to its first wait. *)
Definition spawn (r : reaction) (c : Component) : Component := {|
  history := fold_left setProcessingCount (updates r) (history c);
  tasks := tasks c ++ [next r];
  log := log c ++ emitted r
|}.

(** Conversion [i] goes on after the promise it waited for has settled. *)
Definition deliver (resume : task -> event -> option reaction)
  (i : nat) (ev : event) (c : Component) : option Component :=
  match nth_error (tasks c) i with
  | None => None
  | Some t =>
      match resume t ev with
      | None => None
      | Some r =>
          Some {| history := fold_left setProcessingCount (updates r) (history c);
                  tasks := setNth i (next r) (tasks c);
                  log := log c ++ emitted r |}
      end
  end.

Definition waiting (t : task) : bool := negb (isSettled t).

(** The number of conversions that have not ended. *)
Definition inFlight (c : Component) : nat :=
  length (filter waiting (tasks c)).

(** The counter is well kept: it never was negative, and it is the number
    of conversions that have not ended. *)
Definition counted (c : Component) : Prop :=
  Forall (fun v => (0 <= v)%Z) (history c)
  /\ processingCount c = Z.of_nat (inFlight c).

(** The errors the platform throws inside the pipeline, with the messages
    of the host's browser engine. *)
Definition uriError : thrown := ErrorObject (str "URI malformed").
Definition invalidUrlError : thrown :=
  ErrorObject (str "Failed to construct 'URL': Invalid URL").
Definition nullPropertyError : thrown :=
  ErrorObject (str "Cannot read properties of null (reading 'contents')").
(** The error of [vault.create] when the path is taken. *)
Definition fileExistsError : thrown := ErrorObject (str "File already exists.").

(** Lines 161-174 of the multi-URL variant, 142-155 of the other: from the
    fetched page to the call of [vault.create].  [Some] is the path and the
    content handed to it, [None] the [TypeError] of [new URL]. *)
Definition prepareNote (sanitize : jsstring -> jsstring) (host : Host)
  (settings : UrlDropperSettings) (url html : jsstring)
  : option (jsstring * jsstring) :=
  match extractTitle (titleTextOf host html) (newURL host url) with
  | None => None
  | Some title =>
      let fileName := sanitize title ++ str ".md" in
      let content :=
        renderTemplate (template settings) (frontmatterKey settings) url title in
      Some (getNotePath host settings fileName, content)
  end.

End Pipeline.
Import Pipeline.

(** ** The multi-URL variant *)

Module MultiUrl.

Definition decrement : Z -> Z := fun count => (count - 1)%Z.
Definition increment : Z -> Z := fun count => (count + 1)%Z.

(** [error instanceof Error && error.message.includes('already exists')] *)
Definition saysAlreadyExists (error : thrown) : bool :=
  match error with
  | ErrorObject message => includes (str "already exists") message
  | NotAnError => false
  end.

(** The [catch] block.  A notice made without a duration, [None] here,
    stays for the time the host gives notices by default. *)
Definition onError (url : jsstring) (error : thrown) : list effect :=
  if saysAlreadyExists error then
    [Notice (str "URL: " ++ url ++ [newline]
             ++ str "Error: Note with this title already exists")
       (Some 10000%N)]
  else
    [Notice (str "Error processing URL. Please try again.") None;
     ConsoleError (str "Error processing URL:") error].

(** The [catch] block followed by the [finally] block. *)
Definition failed (url : jsstring) (error : thrown) : reaction :=
  {| next := Settled; emitted := onError url error; updates := [decrement] |}.

(** The end of the [try] block followed by the [finally] block. *)
Definition created (filePath : jsstring) : reaction :=
  {| next := Settled;
     emitted := [Notice (str "Note created: " ++ filePath) None];
     updates := [decrement] |}.

(** [processDroppedUrl] up to the call of [fetch].  When the URL cannot be
    encoded the exception is caught, and the [finally] block runs, before
    the function ever waits. *)
Definition processDroppedUrl (url : jsstring) : reaction :=
  match encodeURIComponent url with
  | Some query =>
      {| next := AwaitFetch url;
         emitted := [Fetch (proxyEndpoint ++ query)];
         updates := [increment] |}
  | None =>
      {| next := Settled;
         emitted := onError url uriError;
         updates := [increment; decrement] |}
  end.

(** [processDroppedUrl] from one wait to the next. *)
Definition resume (host : Host) (settings : UrlDropperSettings)
  (t : task) (ev : event) : option reaction :=
  match t, ev with
  | AwaitFetch url, FetchSettled (Resolved _) =>
      Some {| next := AwaitJson url; emitted := []; updates := [] |}
  | AwaitFetch url, FetchSettled (Rejected error) => Some (failed url error)
  | AwaitJson url, JsonSettled (Resolved None) =>
      Some (failed url nullPropertyError)
  | AwaitJson url, JsonSettled (Resolved (Some html)) =>
      match prepareNote sanitizeFileName host settings url html with
      | None => Some (failed url invalidUrlError)
      | Some (filePath, content) =>
          Some {| next := AwaitCreate url filePath;
                  emitted := [VaultCreate filePath content];
                  updates := [] |}
      end
  | AwaitJson url, JsonSettled (Rejected error) => Some (failed url error)
  | AwaitCreate url filePath, CreateSettled (Resolved newFile) =>
      if openNewNote settings && newFile then
        Some {| next := AwaitOpen url filePath;
                emitted := [OpenFile filePath];
                updates := [] |}
      else Some (created filePath)
  | AwaitCreate url _, CreateSettled (Rejected error) => Some (failed url error)
  | AwaitOpen _ filePath, OpenSettled (Resolved _) => Some (created filePath)
  | AwaitOpen url _, OpenSettled (Rejected error) => Some (failed url error)
  | _, _ => None
  end.

(** The URLs [handleDrop] dispatches:
    [payload.split('\n').filter(url => url.trim())]. *)
Definition droppedUrls (payload : jsstring) : list jsstring :=
  filter (fun url => truthy (trim url)) (split newline payload).

(** [handleDrop], given the [text/plain] data of the drop:
    [urls.forEach(processDroppedUrl)]. *)
Definition handleDrop (payload : jsstring) (c : Component) : Component :=
  fold_left (fun c url => spawn (processDroppedUrl url) c) (droppedUrls payload) c.

(** A drop followed by the settling of promises, in the given order. *)
Fixpoint run (host : Host) (settings : UrlDropperSettings)
  (schedule : list (nat * event)) (c : Component) : option Component :=
  match schedule with
  | [] => Some c
  | (i, ev) :: later =>
      match deliver (resume host settings) i ev c with
      | Some c' => run host settings later c'
      | None => None
      end
  end.

(** The promise a conversion has waited for was rejected with [error]. *)
Definition rejection (ev : event) : option thrown :=
  match ev with
  | FetchSettled (Rejected error) | JsonSettled (Rejected error)
  | CreateSettled (Rejected error) | OpenSettled (Rejected error) => Some error
  | _ => None
  end.

Definition taskUrl (t : task) : jsstring :=
  match t with
  | AwaitFetch url | AwaitJson url | AwaitCreate url _ | AwaitOpen url _ => url
  | Settled => []
  end.

(** The states the component can be in: drops and settling promises in
    any order. *)
Inductive reachable (host : Host) (settings : UrlDropperSettings)
  : Component -> Prop :=
| reach_mounted : reachable host settings mounted
| reach_drop c payload :
    reachable host settings c -> reachable host settings (handleDrop payload c)
| reach_deliver c i ev c' :
    reachable host settings c ->
    deliver (resume host settings) i ev c = Some c' ->
    reachable host settings c'.

End MultiUrl.

(** ** The single-URL variant *)

Module SingleUrl.

(** The [catch] block. *)
Definition onError (error : thrown) : list effect :=
  [ConsoleError (str "Error processing URL:") error;
   Notice (str "Error processing URL. Check console for details.") None].

Definition failed (error : thrown) : reaction :=
  {| next := Settled; emitted := onError error; updates := [] |}.

Definition created (filePath : jsstring) : reaction :=
  {| next := Settled;
     emitted := [Notice (str "Note created: " ++ filePath) None];
     updates := [] |}.

(** [processDroppedUrl] up to the call of [fetch]. *)
Definition processDroppedUrl (url : jsstring) : reaction :=
  match encodeURIComponent url with
  | Some query =>
      {| next := AwaitFetch url;
         emitted := [Fetch (proxyEndpoint ++ query)];
         updates := [] |}
  | None => failed uriError
  end.

(** [processDroppedUrl] from one wait to the next. *)
Definition resume (host : Host) (settings : UrlDropperSettings)
  (t : task) (ev : event) : option reaction :=
  match t, ev with
  | AwaitFetch url, FetchSettled (Resolved _) =>
      Some {| next := AwaitJson url; emitted := []; updates := [] |}
  | AwaitJson url, JsonSettled (Resolved None) => Some (failed nullPropertyError)
  | AwaitJson url, JsonSettled (Resolved (Some html)) =>
      match prepareNote sanitizeFileName_minimal host settings url html with
      | None => Some (failed invalidUrlError)
      | Some (filePath, content) =>
          Some {| next := AwaitCreate url filePath;
                  emitted := [VaultCreate filePath content];
                  updates := [] |}
      end
  | AwaitCreate _ filePath, CreateSettled (Resolved _) => Some (created filePath)
  | AwaitFetch _, FetchSettled (Rejected error)
  | AwaitJson _, JsonSettled (Rejected error)
  | AwaitCreate _ _, CreateSettled (Rejected error) => Some (failed error)
  | _, _ => None
  end.

(** [handleDrop]: [if (url) await processDroppedUrl(url)]. *)
Definition handleDrop (payload : jsstring) (c : Component) : Component :=
  if truthy payload then spawn (processDroppedUrl payload) c else c.

End SingleUrl.

(** ** The rest of the two files *)

(** The states of the single-URL variant. *)
Module SingleUrlStates.

Inductive reachable (host : Host) (settings : UrlDropperSettings)
  : Component -> Prop :=
| reach_mounted : reachable host settings mounted
| reach_drop c payload :
    reachable host settings c ->
    reachable host settings (SingleUrl.handleDrop payload c)
| reach_deliver c i ev c' :
    reachable host settings c ->
    deliver (SingleUrl.resume host settings) i ev c = Some c' ->
    reachable host settings c'.

End SingleUrlStates.

(** What a log holds. *)
Module Accounting.

Definition isNotice (e : effect) : bool :=
  match e with Notice _ _ => true | _ => false end.
Definition isFetch (e : effect) : bool :=
  match e with Fetch _ => true | _ => false end.
Definition isVaultCreate (e : effect) : bool :=
  match e with VaultCreate _ _ => true | _ => false end.
Definition isOpenFile (e : effect) : bool :=
  match e with OpenFile _ => true | _ => false end.
Definition isConsoleError (e : effect) : bool :=
  match e with ConsoleError _ _ => true | _ => false end.

Definition count (p : effect -> bool) (l : list effect) : nat :=
  length (filter p l).

Definition tally (p : task -> bool) (ts : list task) : nat :=
  length (filter p ts).

(** The conversion waits for its fetch or for the body of the response:
    it has fetched and has not yet asked for a note. *)
Definition beforeCreate (t : task) : bool :=
  match t with AwaitFetch _ | AwaitJson _ => true | _ => false end.

Definition awaitsCreate (t : task) : bool :=
  match t with AwaitCreate _ _ => true | _ => false end.

Definition awaitsOpen (t : task) : bool :=
  match t with AwaitOpen _ _ => true | _ => false end.

Definition was (p : task -> bool) (before : option task) : nat :=
  match before with
  | Some t => Nat.b2n (p t)
  | None => 0
  end.

(** The books of one run of a conversion, from the state [before] it (no
    state for the start): a notice exactly when the conversion ends, a
    fetch only at the start, a note only for a conversion that has fetched,
    the opening of a note only for one whose note was made, errors on the
    console only with a notice. *)
Definition balanced (before : option task) (r : reaction) : Prop :=
  count isNotice (emitted r) = Nat.b2n (isSettled (next r))
  /\ count isFetch (emitted r) <= (match before with None => 1 | Some _ => 0 end)
  /\ count isVaultCreate (emitted r) + Nat.b2n (beforeCreate (next r))
     <= count isFetch (emitted r) + was beforeCreate before
  /\ count isOpenFile (emitted r) + Nat.b2n (awaitsCreate (next r))
     <= count isVaultCreate (emitted r) + was awaitsCreate before
  /\ count isConsoleError (emitted r) <= count isNotice (emitted r).

(** The books of the component. *)
Definition accounted (c : Component) : Prop :=
  count isNotice (log c) = tally isSettled (tasks c)
  /\ count isFetch (log c) <= length (tasks c)
  /\ count isVaultCreate (log c) + tally beforeCreate (tasks c)
     <= count isFetch (log c)
  /\ count isOpenFile (log c) + tally awaitsCreate (tasks c)
     <= count isVaultCreate (log c)
  /\ count isConsoleError (log c) <= count isNotice (log c).

End Accounting.
Import Accounting.

(** The drop zone as it is rendered (multi-URL variant). *)
Module View.

(** [Number::toString] of an integer below 10^21. *)
Definition numberToString (n : Z) : jsstring :=
  str (DecimalString.NilZero.string_of_int (Z.to_int n)).

Record rendered := {
  className : jsstring;
  heading : jsstring;
  status : option jsstring
}.

(** The JSX the component returns; [status] is the text of the
    [processing-status] element, [None] when it is not rendered. *)
Definition render (isDragging : bool) (processingCount : Z) : rendered := {|
  className :=
    str "url-dropper-dropzone " ++ (if isDragging then str "dragging" else []);
  heading :=
    if isDragging then str "Ready for your URL" else str "Drop URL Here";
  status :=
    if (processingCount >? 0)%Z then
      Some (str "Processing " ++ numberToString processingCount ++ str " note"
            ++ (if (processingCount >? 1)%Z then str "s" else [])
            ++ str "...")
    else None
|}.

End View.
Import View.

(** [fetchPageTitle] of the multi-URL file. *)
Module PageTitle.

(** The canonical form of a code unit under the [i] flag without the [u]
    flag, as far as it can meet that of an ASCII character of the pattern:
    a code unit from 128 on never has the form of an ASCII one. *)
Definition canonicalize (c : char) : char :=
  if inRange 97 122 c then (c - 32)%N else c.

Fixpoint startsWithIgnoreCase (p s : jsstring) : bool :=
  match p, s with
  | [], _ => true
  | _ :: _, [] => false
  | a :: p', b :: s' =>
      (canonicalize a =? canonicalize b)%N && startsWithIgnoreCase p' s'
  end.

(** What the dot of a pattern without the [s] flag does not match. *)
Definition isLineTerminator (c : char) : bool :=
  (c =? 10)%N || (c =? 13)%N || (c =? 8232)%N || (c =? 8233)%N.

(** [(.*?)<\/title>] at the head of [s]: the lazy quantifier takes as few
    code units as it can, the result is what it took. *)
Fixpoint lazyTitle (s : jsstring) : option jsstring :=
  if startsWithIgnoreCase (str "</title>") s then Some []
  else match s with
       | [] => None
       | c :: t =>
           if isLineTerminator c then None
           else option_map (cons c) (lazyTitle t)
       end.

(** [html.match(/<title>(.*?)<\/title>/i)]: the first group of the
    leftmost match, [None] when there is no match. *)
Fixpoint matchTitle (s : jsstring) : option jsstring :=
  match (if startsWithIgnoreCase (str "<title>") s
         then lazyTitle (skipn 7 s) else None) with
  | Some title => Some title
  | None =>
      match s with
      | [] => None
      | _ :: t => matchTitle t
      end
  end.

(** [fetchPageTitle], given what [fetch] and [response.text()] come to:
    the text of the page, or the error of either.  The result is the
    string returned and what went to the console. *)
Definition fetchPageTitle (response : outcome jsstring)
  : jsstring * list effect :=
  match response with
  | Resolved html =>
      (match matchTitle html with
       | Some title => if truthy title then title else []
       | None => []
       end, [])
  | Rejected error =>
      ([], [ConsoleError (str "Error fetching page title:") error])
  end.

(** Two strings of the same length that differ in the case of ASCII
    letters only. *)
Definition sameIgnoreCase (a b : jsstring) : bool :=
  (length a =? length b) && startsWithIgnoreCase a b.

End PageTitle.
Import PageTitle.

(** [loadSettings] and [saveSettings]. *)
Module Persistence.

(** The values of a settings object. *)
Inductive settingValue := VString (s : jsstring) | VBool (b : bool) | VOther.

(** An object by its own properties; of two entries for one key the first
    is the property. *)
Definition object := list (jsstring * settingValue).

Fixpoint get (o : object) (key : jsstring) : option settingValue :=
  match o with
  | [] => None
  | (k, v) :: rest => if sameString k key then Some v else get rest key
  end.

(** [Object.assign(target, source)]: every own property of the source is
    set on the target. *)
Definition assign (target source : object) : object := source ++ target.

Definition locationName (l : NoteLocation) : jsstring :=
  match l with
  | LocationDefault => str "default"
  | LocationVault => str "vault"
  | LocationCustom => str "custom"
  end.

(** A settings value as the object it is. *)
Definition toObject (s : UrlDropperSettings) : object :=
  [(str "template", VString (template s));
   (str "frontmatterKey", VString (frontmatterKey s));
   (str "noteLocation", VString (locationName (noteLocation s)));
   (str "customNoteLocation", VString (customNoteLocation s));
   (str "openNewNote", VBool (openNewNote s))].

(** The same without [openNewNote], as the single-URL variant has it. *)
Definition toObject_single (s : UrlDropperSettings) : object :=
  [(str "template", VString (template s));
   (str "frontmatterKey", VString (frontmatterKey s));
   (str "noteLocation", VString (locationName (noteLocation s)));
   (str "customNoteLocation", VString (customNoteLocation s))].

(** [Object.assign({}, DEFAULT_SETTINGS, await this.loadData())];
    [loadData] gives [None] when nothing was saved, and otherwise the
    object that [saveSettings] handed to [saveData]. *)
Definition loadSettings (defaults : object) (data : option object) : object :=
  match data with
  | Some saved => assign (assign [] defaults) saved
  | None => assign [] defaults
  end.

(** The settings object read at its type. *)
Definition locationOf (v : settingValue) : option NoteLocation :=
  match v with
  | VString s =>
      if sameString s (str "default") then Some LocationDefault
      else if sameString s (str "vault") then Some LocationVault
      else if sameString s (str "custom") then Some LocationCustom
      else None
  | _ => None
  end.

Definition typed (o : object) : option UrlDropperSettings :=
  match get o (str "template"), get o (str "frontmatterKey"),
        get o (str "noteLocation"), get o (str "customNoteLocation"),
        get o (str "openNewNote") with
  | Some (VString t), Some (VString k), Some l, Some (VString c),
    Some (VBool b) =>
      match locationOf l with
      | Some loc =>
          Some {| template := t; frontmatterKey := k; noteLocation := loc;
                  customNoteLocation := c; openNewNote := b |}
      | None => None
      end
  | _, _, _, _, _ => None
  end.

End Persistence.
Import Persistence.

(** Titles as words and what stands between them, and the file name the
    specification expects of the extended sanitiser for them.  Nothing
    here is taken from the code: [phrase] spells a title out of its parts,
    and the [spec_] definitions spell the expected file name out of the
    same parts, in the words of the specification (an em-dash for a hyphen
    with its white space, one hyphen for a run of white space, the word
    characters of a word in lower case). *)
Module Phrases.

Inductive separator :=
| Spaces (w : jsstring)
| Dash (before after : jsstring).

(** A run of white space, or a hyphen with the white space around it. *)
Definition separatorText (s : separator) : jsstring :=
  match s with
  | Spaces w => w
  | Dash before after => before ++ hyphen :: after
  end.

(** After the first step the hyphen with its white space is an em-dash. *)
Definition separatorNormal (s : separator) : jsstring :=
  match s with
  | Spaces w => w
  | Dash _ _ => [emDash]
  end.

(** In the slug a run of white space is one hyphen, a hyphen with its
    white space one em-dash. *)
Definition spec_separatorMark (s : separator) : jsstring :=
  match s with
  | Spaces _ => [hyphen]
  | Dash _ _ => [emDash]
  end.

(** In the slug a word is its letters in lower case, its digits,
    underscores and em-dashes, and nothing else. *)
Definition spec_wordSlug (w : jsstring) : jsstring :=
  map (fun c => if ((65 <=? c) && (c <=? 90))%N then (c + 32)%N else c)
    (filter (fun c => ((65 <=? c) && (c <=? 90))%N
                      || ((97 <=? c) && (c <=? 122))%N
                      || ((48 <=? c) && (c <=? 57))%N
                      || (c =? 95)%N || (c =? 8212)%N) w).

(** A first word and further words, each behind a separator, with [f] for
    the words and [g] for the separators. *)
Definition spell (f : jsstring -> jsstring) (g : separator -> jsstring)
  (first : jsstring) (rest : list (separator * jsstring)) : jsstring :=
  f first ++ flat_map (fun p => g (fst p) ++ f (snd p)) rest.

Definition phrase (first : jsstring) (rest : list (separator * jsstring))
  : jsstring :=
  spell (fun w => w) separatorText first rest.

Definition spec_phraseSlug (first : jsstring) (rest : list (separator * jsstring))
  : jsstring :=
  spell spec_wordSlug spec_separatorMark first rest.

Definition blank (w : jsstring) : Prop := forallb isSpace w = true.

(** A word has no white space and no hyphen in it, and at least one word
    character or em-dash. *)
Definition goodWord (w : jsstring) : Prop :=
  (forall c, In c w -> isSpace c = false /\ c <> hyphen)
  /\ exists c, In c w /\ (isWord c = true \/ c = emDash).

Definition goodSeparator (s : separator) : Prop :=
  match s with
  | Spaces w => w <> [] /\ blank w
  | Dash before after => blank before /\ blank after
  end.

Definition goodPhrase (first : jsstring) (rest : list (separator * jsstring))
  : Prop :=
  goodWord first
  /\ Forall (fun p => goodSeparator (fst p) /\ goodWord (snd p)) rest.

(** A string that is not empty and has no white space in it. *)
Definition solid (k : jsstring) : Prop :=
  k <> [] /\ forall c, In c k -> isSpace c = false.

End Phrases.
Import Phrases.

(** * Properties *)

(** ** Code units and trimming *)

Ltac bool_lia :=
  cbv beta delta [isWord isSpace inRange lowerChar hyphen emDash slash newline
    dollar openBrace char] in *;
  repeat match goal with
         | H : context [if ?b then _ else _] |- _ => destruct b eqn:?
         | |- context [if ?b then _ else _] => destruct b eqn:?
         end;
  rewrite ?orb_false_iff, ?andb_false_iff, ?orb_true_iff, ?andb_true_iff,
    ?N.leb_le, ?N.leb_gt, ?N.eqb_eq, ?N.eqb_neq in *;
  lia.

Lemma word_not_space c : isWord c = true -> isSpace c = false.
Proof. intros H. bool_lia. Qed.

Lemma lowerChar_space c : isSpace (lowerChar c) = isSpace c.
Proof.
  destruct (isSpace c) eqn:E; bool_lia.
Qed.

Lemma dropWhile_app_stop p x c y :
  p c = false -> dropWhile p (x ++ c :: y) = dropWhile p x ++ c :: y.
Proof.
  intros Hc. induction x as [|d x IH]; simpl.
  - now rewrite Hc.
  - destruct (p d); [exact IH | reflexivity].
Qed.

Lemma dropWhile_all p s : forallb p s = true -> dropWhile p s = [].
Proof.
  induction s as [|c s IH]; simpl; [reflexivity|].
  destruct (p c); simpl; [exact IH | discriminate].
Qed.

Lemma dropWhile_nil_iff p s : dropWhile p s = [] <-> forallb p s = true.
Proof.
  split; [|apply dropWhile_all].
  induction s as [|c s IH]; simpl; [reflexivity|].
  destruct (p c); simpl; [exact IH | discriminate].
Qed.

Lemma dropWhile_length p s : length (dropWhile p s) <= length s.
Proof.
  induction s as [|c s IH]; simpl; [lia|].
  destruct (p c); simpl; lia.
Qed.

Lemma dropWhile_incl p s c : In c (dropWhile p s) -> In c s.
Proof.
  induction s as [|d s IH]; simpl; [tauto|].
  destruct (p d); simpl; tauto.
Qed.

Lemma dropWhile_head p s c r : dropWhile p s = c :: r -> p c = false.
Proof.
  induction s as [|d s IH]; simpl; [discriminate|].
  destruct (p d) eqn:E; [exact IH|].
  intros [= <- <-]. exact E.
Qed.

(** A string is its leading white space followed by the rest. *)
Lemma dropWhile_split p s :
  exists w, s = w ++ dropWhile p s /\ forallb p w = true.
Proof.
  induction s as [|c s (w & E & W)]; simpl.
  - now exists [].
  - destruct (p c) eqn:Hc.
    + exists (c :: w). simpl. rewrite Hc, W. split; [now f_equal | reflexivity].
    + now exists [].
Qed.

Lemma trimEnd_nil_iff s : trimEnd s = [] <-> forallb isSpace s = true.
Proof.
  induction s as [|c s IH]; simpl; [tauto|].
  destruct (trimEnd s) as [|d t'] eqn:E.
  - destruct (isSpace c); simpl; [tauto|]. split; discriminate.
  - split; [discriminate|]. intros H. apply andb_true_iff in H.
    destruct IH as [_ IH]. now specialize (IH (proj2 H)).
Qed.

Lemma trimEnd_cons_stop c s :
  isSpace c = false -> trimEnd (c :: s) = c :: trimEnd s.
Proof.
  intros Hc. simpl. destruct (trimEnd s); [now rewrite Hc | reflexivity].
Qed.

Lemma trimEnd_app_stop x c y :
  isSpace c = false -> trimEnd (x ++ c :: y) = x ++ c :: trimEnd y.
Proof.
  intros Hc. induction x as [|d x IH].
  - now apply trimEnd_cons_stop.
  - change ((d :: x) ++ c :: y) with (d :: (x ++ c :: y)).
    simpl trimEnd. rewrite IH. destruct x; reflexivity.
Qed.

Lemma trimEnd_incl s c : In c (trimEnd s) -> In c s.
Proof.
  revert c. induction s as [|d s IH]; simpl; [tauto|]. intros c.
  destruct (trimEnd s) as [|e t'].
  - destruct (isSpace d); simpl; tauto.
  - intros [H|H]; [now left | right; now apply IH].
Qed.

Lemma trimEnd_all_space s : forallb isSpace s = true -> trimEnd s = [].
Proof. apply trimEnd_nil_iff. Qed.

Lemma trim_app_stop x c y :
  isSpace c = false -> trim (x ++ c :: y) = trimStart x ++ c :: trimEnd y.
Proof.
  intros Hc. unfold trim, trimStart.
  rewrite dropWhile_app_stop by exact Hc. now apply trimEnd_app_stop.
Qed.

Lemma trim_incl s c : In c (trim s) -> In c s.
Proof.
  intros H. apply trimEnd_incl in H. now apply dropWhile_incl in H.
Qed.

(** Trimming leaves nothing exactly when there is nothing but white space. *)
Lemma trim_nil_iff s : trim s = [] <-> forallb isSpace s = true.
Proof.
  unfold trim, trimStart. rewrite trimEnd_nil_iff.
  destruct (dropWhile_split isSpace s) as (w & E & W).
  split; intros H.
  - rewrite E, forallb_app, W, H. reflexivity.
  - destruct (dropWhile isSpace s) as [|c r] eqn:D; [reflexivity|].
    apply dropWhile_head in D. rewrite E in H. rewrite forallb_app in H.
    simpl in H. rewrite D in H. rewrite andb_false_r in H. discriminate.
Qed.

(** ** The regular-expression replacements *)

Lemma length_ind (A : Type) (P : list A -> Prop) :
  (forall s, (forall u, length u < length s -> P u) -> P s) -> forall s, P s.
Proof.
  intros step s. remember (length s) as n eqn:E. revert s E.
  induction n as [n IH] using lt_wf_ind. intros s ->.
  apply step. intros u Hu. exact (IH _ Hu u eq_refl).
Qed.

Lemma collapseSpaces_cons c t :
  collapseSpaces (c :: t) =
  if isSpace c then hyphen :: collapseSpaces (dropWhile isSpace t)
  else c :: collapseSpaces t.
Proof. simp collapseSpaces. destruct (isSpace c); reflexivity. Qed.

Lemma normalizeDashes_cons c t :
  normalizeDashes (c :: t) =
  match matchDash (c :: t) with
  | Some rest => emDash :: normalizeDashes rest
  | None => c :: normalizeDashes t
  end.
Proof.
  simp normalizeDashes. unfold inspect.
  generalize (@eq_refl _ (matchDash (c :: t))).
  generalize (matchDash (c :: t)) at 2 4 5.
  intros [rest|] e; simp normalizeDashes; reflexivity.
Qed.

Lemma collapseSpaces_no_space s c :
  In c (collapseSpaces s) -> isSpace c = false.
Proof.
  revert c. induction s as [s IH] using length_ind. intros c.
  destruct s as [|d t]; [simp collapseSpaces; contradiction|].
  rewrite collapseSpaces_cons. destruct (isSpace d) eqn:Hd.
  - intros [<-|H]; [reflexivity|].
    apply IH in H; [exact H|]. pose proof (dropWhile_length isSpace t).
    simpl. lia.
  - intros [<-|H]; [exact Hd|]. apply IH in H; [exact H | simpl; lia].
Qed.

Lemma collapseSpaces_in s c :
  In c (collapseSpaces s) -> c = hyphen \/ In c s.
Proof.
  revert c. induction s as [s IH] using length_ind. intros c.
  destruct s as [|d t]; [simp collapseSpaces; contradiction|].
  rewrite collapseSpaces_cons. destruct (isSpace d) eqn:Hd.
  - intros [<-|H]; [now left|].
    apply IH in H.
    + destruct H as [H|H]; [now left|]. right. right.
      now apply dropWhile_incl in H.
    + pose proof (dropWhile_length isSpace t). simpl. lia.
  - intros [<-|H]; [right; now left|].
    apply IH in H; [|simpl; lia]. destruct H; [now left | right; now right].
Qed.

Lemma collapseSpaces_nil_iff s : collapseSpaces s = [] <-> s = [].
Proof.
  split; [|intros ->; now simp collapseSpaces].
  destruct s as [|d t]; [reflexivity|].
  rewrite collapseSpaces_cons. destruct (isSpace d); discriminate.
Qed.

Lemma collapseSpaces_app_stop x c y :
  isSpace c = false ->
  collapseSpaces (x ++ c :: y) = collapseSpaces x ++ c :: collapseSpaces y.
Proof.
  intros Hc. induction x as [x IH] using length_ind.
  destruct x as [|d x].
  - simpl. rewrite collapseSpaces_cons, Hc. now simp collapseSpaces.
  - change ((d :: x) ++ c :: y) with (d :: (x ++ c :: y)).
    rewrite !collapseSpaces_cons. destruct (isSpace d).
    + rewrite dropWhile_app_stop by exact Hc. rewrite IH; [reflexivity|].
      pose proof (dropWhile_length isSpace x). simpl. lia.
    + rewrite IH; [reflexivity | simpl; lia].
Qed.

(** A match of [/\s*-\s*/] at the head: white space, a hyphen, and the
    white space behind it. *)
Lemma matchDash_some s rest :
  matchDash s = Some rest ->
  exists w r, s = w ++ hyphen :: r /\ forallb isSpace w = true
              /\ rest = dropWhile isSpace r.
Proof.
  unfold matchDash. intros H.
  destruct (dropWhile_split isSpace s) as (w & E & W).
  destruct (dropWhile isSpace s) as [|c r]; [discriminate|].
  destruct (c =? hyphen)%N eqn:Hc; [|discriminate].
  apply N.eqb_eq in Hc. subst c. injection H as <-.
  now exists w, r.
Qed.

Lemma matchDash_at w r :
  forallb isSpace w = true ->
  matchDash (w ++ hyphen :: r) = Some (dropWhile isSpace r).
Proof.
  intros W. unfold matchDash.
  rewrite dropWhile_app_stop by reflexivity.
  rewrite (dropWhile_all _ _ W). reflexivity.
Qed.

Lemma matchDash_none_head c t : matchDash (c :: t) = None -> c <> hyphen.
Proof.
  intros H ->. pose proof (matchDash_at [] t eq_refl) as E.
  simpl in E. congruence.
Qed.

Lemma matchDash_rest_length s rest :
  matchDash s = Some rest -> length rest < length s.
Proof.
  intros H. apply matchDash_some in H as (w & r & -> & _ & ->).
  pose proof (dropWhile_length isSpace r). rewrite length_app. simpl. lia.
Qed.

(** No plain hyphen is left by the normalisation. *)
Lemma normalizeDashes_no_hyphen s : ~ In hyphen (normalizeDashes s).
Proof.
  induction s as [s IH] using length_ind.
  destruct s as [|c t]; [simp normalizeDashes; tauto|].
  rewrite normalizeDashes_cons. destruct (matchDash (c :: t)) as [rest|] eqn:M.
  - intros [H|H]; [discriminate|].
    revert H. apply IH. now apply matchDash_rest_length.
  - intros [H|H]; [now apply matchDash_none_head in M|].
    revert H. apply IH. simpl. lia.
Qed.

Lemma normalizeDashes_in s c :
  In c (normalizeDashes s) -> In c s \/ (c = emDash /\ In hyphen s).
Proof.
  revert c. induction s as [s IH] using length_ind. intros c.
  destruct s as [|d t]; [simp normalizeDashes; contradiction|].
  rewrite normalizeDashes_cons. destruct (matchDash (d :: t)) as [rest|] eqn:M.
  - pose proof (matchDash_rest_length _ _ M) as L.
    apply matchDash_some in M as (w & r & E & _ & ->). rewrite E.
    intros [<-|H].
    + right. split; [reflexivity|]. apply in_or_app. right. now left.
    + apply IH in H; [|exact L].
      destruct H as [H|[-> H]].
      * left. apply in_or_app. right. right. now apply dropWhile_incl in H.
      * right. split; [reflexivity|]. apply in_or_app. right. now left.
  - intros [<-|H]; [left; now left|].
    apply IH in H; [|simpl; lia].
    destruct H as [H|[-> H]]; [left; now right | right; split; [reflexivity | now right]].
Qed.

(** Hyphens become em-dashes; what is neither white space nor a hyphen
    stays. *)
Lemma normalizeDashes_keeps s c :
  In c s -> isSpace c = false ->
  In (if (c =? hyphen)%N then emDash else c) (normalizeDashes s).
Proof.
  induction s as [s IH] using length_ind. intros Hin Hc.
  destruct s as [|d t]; [contradiction|].
  rewrite normalizeDashes_cons. destruct (matchDash (d :: t)) as [rest|] eqn:M.
  - pose proof (matchDash_rest_length _ _ M) as L.
    apply matchDash_some in M as (w & r & E & W & ->). rewrite E in Hin.
    apply in_app_or in Hin as [Hin|[<-|Hin]].
    + rewrite forallb_forall in W. apply W in Hin. congruence.
    + now left.
    + destruct (dropWhile_split isSpace r) as (w' & E' & W').
      rewrite E' in Hin. apply in_app_or in Hin as [Hin|Hin].
      * rewrite forallb_forall in W'. apply W' in Hin. congruence.
      * right. now apply IH.
  - destruct Hin as [->|Hin].
    + apply matchDash_none_head in M. apply N.eqb_neq in M. rewrite M. now left.
    + right. apply IH; [simpl; lia | exact Hin | exact Hc].
Qed.

Lemma normalizeDashes_match s rest :
  matchDash s = Some rest -> normalizeDashes s = emDash :: normalizeDashes rest.
Proof.
  destruct s as [|c t]; [discriminate|].
  intros M. now rewrite normalizeDashes_cons, M.
Qed.

Lemma normalizeDashes_copy c t :
  matchDash (c :: t) = None -> normalizeDashes (c :: t) = c :: normalizeDashes t.
Proof. intros M. now rewrite normalizeDashes_cons, M. Qed.

Lemma matchDash_stop w d r :
  forallb isSpace w = true -> isSpace d = false -> d <> hyphen ->
  matchDash (w ++ d :: r) = None.
Proof.
  intros W Hd Hh. unfold matchDash.
  rewrite dropWhile_app_stop by exact Hd. rewrite (dropWhile_all _ _ W).
  simpl. apply N.eqb_neq in Hh. now rewrite Hh.
Qed.

Lemma trimEnd_app_space a w :
  forallb isSpace w = true -> trimEnd (a ++ w) = trimEnd a.
Proof.
  intros W. induction a as [|c a IH]; simpl.
  - now apply trimEnd_all_space.
  - now rewrite IH.
Qed.

Lemma trimStart_trimEnd s : trimStart (trimEnd s) = trimEnd (trimStart s).
Proof.
  unfold trimStart. destruct (dropWhile_split isSpace s) as (w & E & W).
  destruct (dropWhile isSpace s) as [|d r] eqn:D.
  - rewrite app_nil_r in E. subst w.
    rewrite (trimEnd_all_space _ W). reflexivity.
  - pose proof (dropWhile_head _ _ _ _ D) as Hd.
    rewrite E at 1. rewrite (trimEnd_app_stop _ _ _ Hd).
    rewrite (dropWhile_app_stop _ _ _ _ Hd), (dropWhile_all _ _ W).
    now rewrite trimEnd_cons_stop.
Qed.

(** Around a hyphen the normalisation works on both sides apart: the
    hyphen, with the white space next to it, becomes one em-dash. *)
Lemma normalizeDashes_hyphen a b :
  normalizeDashes (a ++ hyphen :: b) =
  normalizeDashes (trimEnd a) ++ emDash :: normalizeDashes (trimStart b).
Proof.
  induction a as [a IH] using length_ind.
  destruct (dropWhile_split isSpace a) as (w & E & W).
  destruct (dropWhile isSpace a) as [|d r] eqn:D.
  - rewrite app_nil_r in E. subst w.
    rewrite (normalizeDashes_match _ _ (matchDash_at _ b W)).
    rewrite (trimEnd_all_space _ W). now simp normalizeDashes.
  - pose proof (dropWhile_head _ _ _ _ D) as Hd.
    assert (La : length r < length a).
    { rewrite E, length_app. simpl. lia. }
    rewrite E at 2. rewrite (trimEnd_app_stop _ _ _ Hd).
    rewrite E at 1. rewrite <- app_assoc. simpl.
    destruct (N.eq_dec d hyphen) as [->|Hh].
    + rewrite (normalizeDashes_match _ _ (matchDash_at _ (r ++ hyphen :: b) W)).
      rewrite (normalizeDashes_match _ _ (matchDash_at _ (trimEnd r) W)).
      rewrite dropWhile_app_stop by reflexivity.
      rewrite IH.
      * fold (trimStart r). fold (trimStart (trimEnd r)).
        now rewrite trimStart_trimEnd.
      * pose proof (dropWhile_length isSpace r). lia.
    + destruct w as [|c w'].
      * simpl in *.
        rewrite (normalizeDashes_copy _ _ (matchDash_stop [] _ _ eq_refl Hd Hh)).
        rewrite (normalizeDashes_copy _ _ (matchDash_stop [] _ _ eq_refl Hd Hh)).
        simpl. now rewrite IH.
      * simpl app.
        rewrite (normalizeDashes_copy c (w' ++ d :: _)
                   (matchDash_stop (c :: w') _ _ W Hd Hh)).
        rewrite (normalizeDashes_copy c (w' ++ d :: _)
                   (matchDash_stop (c :: w') _ _ W Hd Hh)).
        change (w' ++ d :: r ++ hyphen :: b) with (w' ++ (d :: r) ++ hyphen :: b).
        rewrite app_assoc. rewrite IH.
        -- rewrite (trimEnd_app_stop _ _ _ Hd). reflexivity.
        -- rewrite E, !length_app. simpl. lia.
Qed.

Lemma stripExtended_app_emDash x y :
  stripExtended (x ++ emDash :: y) = stripExtended x ++ emDash :: stripExtended y.
Proof. unfold stripExtended. now rewrite filter_app. Qed.

Lemma toLowerCase_app_emDash x y :
  toLowerCase (x ++ emDash :: y) = toLowerCase x ++ emDash :: toLowerCase y.
Proof. unfold toLowerCase. now rewrite map_app. Qed.

(** The extended sanitiser around any hyphen of the title. *)
Lemma sanitizeFileName_hyphen a b :
  sanitizeFileName (a ++ hyphen :: b) =
  toLowerCase (collapseSpaces (trimStart (stripExtended
                 (normalizeDashes (trimEnd a)))))
  ++ emDash ::
  toLowerCase (collapseSpaces (trimEnd (stripExtended
                 (normalizeDashes (trimStart b))))).
Proof.
  unfold sanitizeFileName.
  rewrite normalizeDashes_hyphen, stripExtended_app_emDash.
  rewrite trim_app_stop by reflexivity.
  rewrite collapseSpaces_app_stop by reflexivity.
  apply toLowerCase_app_emDash.
Qed.

(** What the extended sanitiser hands to [toLowerCase]. *)
Lemma extended_alphabet s c :
  In c (collapseSpaces (trim (stripExtended (normalizeDashes s)))) ->
  isWord c = true \/ c = hyphen \/ c = emDash.
Proof.
  intros H. pose proof (collapseSpaces_no_space _ _ H) as Hs.
  apply collapseSpaces_in in H as [->|H]; [tauto|].
  apply trim_incl in H. apply filter_In in H as [_ H].
  rewrite Hs, orb_false_r in H. apply orb_true_iff in H as [H|H]; [tauto|].
  apply N.eqb_eq in H. tauto.
Qed.

Lemma minimal_alphabet s c :
  In c (sanitizeFileName_minimal s) -> isWord c = true \/ c = hyphen.
Proof.
  intros H. pose proof (collapseSpaces_no_space _ _ H) as Hs.
  apply collapseSpaces_in in H as [->|H]; [tauto|].
  apply trim_incl in H. apply filter_In in H as [_ H].
  rewrite Hs, orb_false_r in H. apply orb_true_iff in H as [H|H]; [tauto|].
  apply N.eqb_eq in H. tauto.
Qed.

Lemma sanitizeFileName_alphabet s c :
  In c (sanitizeFileName s) ->
  (isWord c = true /\ inRange 65 90 c = false) \/ c = hyphen \/ c = emDash.
Proof.
  unfold sanitizeFileName, toLowerCase. intros H.
  apply in_map_iff in H as (d & <- & H). apply extended_alphabet in H.
  destruct H as [H | [-> | ->]];
    [left | right; left; reflexivity | right; right; reflexivity].
  split; bool_lia.
Qed.

(** ** Filename Sanitizer: properties *)

Lemma forallb_false_iff (p : char -> bool) s :
  forallb p s <> true <-> exists c, In c s /\ p c = false.
Proof.
  induction s as [|d s IH]; simpl.
  - split; [congruence | intros (c & [] & _)].
  - destruct (p d) eqn:Hd; simpl.
    + rewrite IH. split.
      * intros (c & H & Hc). exists c. tauto.
      * intros (c & [<-|H] & Hc); [congruence | now exists c].
    + split; [|congruence]. intros _. exists d. tauto.
Qed.

(** After trimming and collapsing something is left exactly when the
    string has a code unit that is not white space. *)
Lemma collapse_trim_nonempty s :
  collapseSpaces (trim s) <> [] <-> exists c, In c s /\ isSpace c = false.
Proof.
  rewrite collapseSpaces_nil_iff, trim_nil_iff. apply forallb_false_iff.
Qed.

Lemma toLowerCase_no_space s :
  (forall c, In c s -> isSpace c = false) ->
  forall c, In c (toLowerCase s) -> isSpace c = false.
Proof.
  intros H c Hc. apply in_map_iff in Hc as (d & <- & Hd).
  rewrite lowerChar_space. now apply H.
Qed.

(** C1, as amended: for every title both sanitisers return a string with
    no white-space code unit in it.  The result of the minimal one is not
    empty exactly when the title has a word character or a hyphen, that of
    the extended one exactly when the title has a word character, a hyphen
    or an em-dash.  A title without any of these gives the empty string. *)
Theorem sanitizeFileName_slug (title : jsstring) :
  (forall c, In c (sanitizeFileName_minimal title) -> isSpace c = false)
  /\ (forall c, In c (sanitizeFileName title) -> isSpace c = false)
  /\ (sanitizeFileName_minimal title <> [] <->
      exists c, In c title /\ (isWord c = true \/ c = hyphen))
  /\ (sanitizeFileName title <> [] <->
      exists c, In c title /\ (isWord c = true \/ c = hyphen \/ c = emDash)).
Proof.
  split; [|split; [|split]].
  - intros c. apply collapseSpaces_no_space.
  - apply toLowerCase_no_space. intros c. apply collapseSpaces_no_space.
  - unfold sanitizeFileName_minimal. rewrite collapse_trim_nonempty.
    split.
    + intros (c & H & Hs). exists c. apply filter_In in H as [H K].
      split; [exact H|]. rewrite Hs, orb_false_r in K.
      apply orb_true_iff in K as [K|K]; [tauto|]. apply N.eqb_eq in K. tauto.
    + intros (c & H & K). exists c.
      assert (Hs : isSpace c = false).
      { destruct K as [K| ->]; [now apply word_not_space | reflexivity]. }
      split; [|exact Hs]. apply filter_In. split; [exact H|].
      destruct K as [K| ->]; [now rewrite K | reflexivity].
  - unfold sanitizeFileName, toLowerCase.
    assert (M : forall l : jsstring, map lowerChar l <> [] <-> l <> []).
    { intros [|x l]; simpl; split; congruence. }
    rewrite M, collapse_trim_nonempty. split.
    + intros (c & H & Hs). apply filter_In in H as [H K].
      rewrite Hs, orb_false_r in K.
      apply normalizeDashes_in in H as [H|[-> H]].
      * exists c. split; [exact H|].
        apply orb_true_iff in K as [K|K]; [tauto|]. apply N.eqb_eq in K. tauto.
      * exists hyphen. tauto.
    + intros (c & H & K).
      assert (Hs : isSpace c = false).
      { destruct K as [K|[->| ->]]; [now apply word_not_space | | ]; reflexivity. }
      pose proof (normalizeDashes_keeps _ _ H Hs) as Hin.
      exists (if (c =? hyphen)%N then emDash else c).
      destruct (c =? hyphen)%N eqn:Hh.
      * split; [|reflexivity]. apply filter_In. now split.
      * split; [|exact Hs]. apply filter_In. split; [exact Hin|].
        destruct K as [K|[->| ->]]; [now rewrite K | discriminate | reflexivity].
Qed.

(** C1, as stated, fails: titles that are not empty and leave nothing, a
    title of punctuation and one of Japanese characters. *)
Lemma sanitizeFileName_empty_slug :
  str "?!" <> []
  /\ sanitizeFileName_minimal (str "?!") = []
  /\ sanitizeFileName (str "?!") = []
  /\ sanitizeFileName_minimal [26085; 26412; 35486]%N = []
  /\ sanitizeFileName [26085; 26412; 35486]%N = [].
Proof. repeat split; try reflexivity. discriminate. Qed.

Example sanitize_minimal_scenario :
  sanitizeFileName_minimal (str "My Post Title") = str "My-Post-Title".
Proof. reflexivity. Qed.

Example sanitize_extended_scenario :
  sanitizeFileName (str "My Post - Title") = str "my-post" ++ [emDash] ++ str "title".
Proof. reflexivity. Qed.

(** ** Title Extractor: properties *)

Lemma split_nonempty sep s : split sep s <> [].
Proof.
  destruct s as [|c t]; simpl; [discriminate|].
  destruct (c =? sep)%N; [discriminate|].
  destruct (split sep t); discriminate.
Qed.

Lemma split_app_sep sep x y :
  split sep (x ++ sep :: y) = split sep x ++ split sep y.
Proof.
  induction x as [|c x IH]; simpl.
  - now rewrite N.eqb_refl.
  - destruct (c =? sep)%N; [now rewrite IH|].
    rewrite IH. pose proof (split_nonempty sep x).
    destruct (split sep x); [contradiction | reflexivity].
Qed.

Lemma split_plain sep s : Forall (fun c => c <> sep) s -> split sep s = [s].
Proof.
  induction 1 as [|c s Hc _ IH]; simpl; [reflexivity|].
  apply N.eqb_neq in Hc. now rewrite Hc, IH.
Qed.

Lemma pop_app a b : b <> [] -> pop (a ++ b) = pop b.
Proof.
  intros Hb. induction a as [|x a IH]; [reflexivity|].
  simpl. rewrite IH. destruct (a ++ b) eqn:E; [|reflexivity].
  apply app_eq_nil in E. tauto.
Qed.

(** [pathname.split('/').pop()] is what stands behind the last slash. *)
Lemma pop_split_last base segment :
  Forall (fun c => c <> slash) segment ->
  pop (split slash (base ++ slash :: segment)) = Some segment.
Proof.
  intros H. rewrite split_app_sep, pop_app by apply split_nonempty.
  now rewrite (split_plain _ _ H).
Qed.

Lemma last_slash s :
  Forall (fun c => c <> slash) s
  \/ exists base segment,
       s = base ++ slash :: segment /\ Forall (fun c => c <> slash) segment.
Proof.
  induction s as [|c t [IH|(base & seg & -> & Hs)]].
  - left. constructor.
  - destruct (N.eq_dec c slash) as [->|Hc].
    + right. now exists [], t.
    + left. now constructor.
  - right. now exists (c :: base), seg.
Qed.

(** C2: when the page has no title element, or an empty one, the title
    is the last path segment of the URL when that segment is not empty, and
    the host name of the URL when it is empty, as it is for a path that
    ends in a slash.  The last segment is what stands behind the last slash
    of the path, and the whole path when it has no slash; every path is of
    one of these two kinds. *)
Theorem extractTitle_fallback (titleText : option jsstring) (urlObj : URL) :
  titleText = None \/ titleText = Some [] ->
  (Forall (fun c => c <> slash) (pathname urlObj)
   \/ exists base segment,
        pathname urlObj = base ++ slash :: segment
        /\ Forall (fun c => c <> slash) segment)
  /\ (forall base segment,
        pathname urlObj = base ++ slash :: segment ->
        Forall (fun c => c <> slash) segment ->
        extractTitle titleText (Some urlObj)
        = Some (if truthy segment then segment else hostname urlObj))
  /\ (Forall (fun c => c <> slash) (pathname urlObj) ->
      extractTitle titleText (Some urlObj)
      = Some (if truthy (pathname urlObj) then pathname urlObj
              else hostname urlObj)).
Proof.
  intros Ht.
  assert (E : extractTitle titleText (Some urlObj) = Some (fallbackTitle urlObj)).
  { destruct Ht as [-> | ->]; reflexivity. }
  rewrite E. unfold fallbackTitle.
  split; [apply last_slash|]. split.
  - intros base segment Hp Hs. now rewrite Hp, pop_split_last.
  - intros Hs. rewrite (split_plain _ _ Hs). reflexivity.
Qed.

Lemma extractTitle_fallback_witness :
  extractTitle None
    (Some {| pathname := str "/articles/"; hostname := str "example.com" |})
  = Some (str "example.com").
Proof.
  refine (proj1 (proj2
    (extractTitle_fallback None
       {| pathname := str "/articles/"; hostname := str "example.com" |}
       (or_introl eq_refl)))
    (str "/articles") [] eq_refl _).
  constructor.
Defined.

Example extractTitle_last_segment :
  extractTitle None
    (Some {| pathname := str "/blog/my-post"; hostname := str "example.com" |})
  = Some (str "my-post").
Proof. reflexivity. Qed.

Example extractTitle_opaque_path :
  extractTitle (Some [])
    (Some {| pathname := str "user@example.com"; hostname := [] |})
  = Some (str "user@example.com").
Proof. reflexivity. Qed.

(** C8, as amended: for a URL that parses and has a host name that is not
    empty, as every http and https URL has, the extractor returns a title
    that is not empty, whatever the page. *)
Theorem extractTitle_nonempty (titleText : option jsstring) (urlObj : URL) :
  hostname urlObj <> [] ->
  exists title,
    extractTitle titleText (Some urlObj) = Some title /\ title <> [].
Proof.
  intros Hh. unfold extractTitle.
  assert (F : fallbackTitle urlObj <> []).
  { unfold fallbackTitle. destruct (pop _) as [s|]; [|exact Hh].
    destruct s; [exact Hh | discriminate]. }
  destruct titleText as [[|c t]|]; simpl.
  - now exists (fallbackTitle urlObj).
  - exists (c :: t). split; [reflexivity | discriminate].
  - now exists (fallbackTitle urlObj).
Qed.

Lemma extractTitle_nonempty_witness :
  exists title,
    extractTitle None
      (Some {| pathname := str "/articles/"; hostname := str "example.com" |})
    = Some title /\ title <> [].
Proof.
  apply (extractTitle_nonempty None
           {| pathname := str "/articles/"; hostname := str "example.com" |}).
  discriminate.
Defined.

(** C8, as stated, fails: [file:///] parses, to the path [/] and an empty
    host name, and a page without a title then gets the empty title. *)
Lemma extractTitle_empty_host :
  extractTitle None (Some {| pathname := str "/"; hostname := [] |}) = Some [].
Proof. reflexivity. Qed.

(** ** Template Renderer: properties *)

Lemma getSubstitution_plain matched before after v :
  lacks dollar v -> getSubstitution matched before after v = v.
Proof.
  induction 1 as [|c v Hc _ IH]; simpl; [reflexivity|].
  apply N.eqb_neq in Hc. now rewrite Hc, IH.
Qed.

(** With no dollar sign in the value the replacement is the literal one. *)
Lemma replace_plain p v s :
  lacks dollar v -> replace p v s = spec_replaceFirst p v s.
Proof.
  intros H. unfold replace, spec_replaceFirst.
  destruct (indexOf p s); [|reflexivity].
  now rewrite getSubstitution_plain.
Qed.

Lemma startsWith_app p r : startsWith p (p ++ r) = true.
Proof.
  induction p as [|c p IH]; simpl; [reflexivity|].
  now rewrite N.eqb_refl, IH.
Qed.

Lemma indexOf_head p r : indexOf p (p ++ r) = Some 0.
Proof.
  destruct p as [|c p]; [destruct r; reflexivity|].
  change ((c :: p) ++ r) with (c :: (p ++ r)).
  unfold indexOf; fold indexOf.
  change (c :: (p ++ r)) with ((c :: p) ++ r).
  now rewrite startsWith_app.
Qed.

Lemma spec_replaceFirst_head p v r : spec_replaceFirst p v (p ++ r) = v ++ r.
Proof.
  unfold spec_replaceFirst. rewrite indexOf_head. simpl.
  now rewrite skipn_app, skipn_all, Nat.sub_diag.
Qed.

(** Where the search passes over a prefix, the replacement does too. *)
Lemma spec_replaceFirst_skip p v x r :
  indexOf p (x ++ r) = option_map (Nat.add (length x)) (indexOf p r) ->
  spec_replaceFirst p v (x ++ r) = x ++ spec_replaceFirst p v r.
Proof.
  intros E. unfold spec_replaceFirst. rewrite E.
  destruct (indexOf p r) as [pos|]; simpl; [|reflexivity].
  rewrite firstn_app, firstn_all2 by lia.
  rewrite skipn_app, skipn_all2 by lia.
  replace (length x + pos - length x) with pos by lia.
  replace (length x + pos + length p - length x) with (pos + length p) by lia.
  now rewrite <- app_assoc.
Qed.

Lemma placeholderText_brace p :
  exists rest, placeholderText p = openBrace :: rest.
Proof. destruct p; eexists; reflexivity. Qed.

Lemma indexOf_skip_text p t r :
  lacks openBrace t ->
  indexOf (placeholderText p) (t ++ r) =
  option_map (Nat.add (length t)) (indexOf (placeholderText p) r).
Proof.
  destruct (placeholderText_brace p) as (rest & ->).
  induction 1 as [|c t Hc _ IH].
  - simpl app. now destruct (indexOf _ r).
  - change ((c :: t) ++ r) with (c :: (t ++ r)).
    unfold indexOf at 1; fold indexOf.
    assert (S : startsWith (openBrace :: rest) (c :: t ++ r) = false).
    { cbn [startsWith]. apply N.eqb_neq in Hc. rewrite N.eqb_sym in Hc.
      now rewrite Hc. }
    rewrite S, IH. now destruct (indexOf _ r).
Qed.

Lemma indexOf_skip_hole p q r :
  p <> q ->
  indexOf (placeholderText p) (placeholderText q ++ r) =
  option_map (Nat.add (length (placeholderText q)))
    (indexOf (placeholderText p) r).
Proof.
  intros Hpq.
  destruct p, q; try congruence;
    cbv [placeholderText str list_ascii_of_string map N_of_ascii N_of_digits
         N.add N.mul Pos.add Pos.mul Pos.succ app length];
    cbn; now destruct (indexOf _ r).
Qed.

Lemma placeholder_eqb_eq p q : placeholder_eqb p q = true <-> p = q.
Proof. destruct p, q; simpl; split; congruence. Qed.

Lemma indexOf_nil p : indexOf (placeholderText p) [] = None.
Proof. now destruct p. Qed.

(** On a template given by its pieces, the literal replacement of a
    placeholder fills the first hole for it. *)
Lemma spec_replaceFirst_flatten p v pieces :
  Forall (lacks openBrace) (texts pieces) ->
  spec_replaceFirst (placeholderText p) v (flatten pieces) =
  flatten (fill p v pieces).
Proof.
  induction pieces as [|[t|q] rest IH]; intros Ht.
  - unfold spec_replaceFirst. simpl flatten. now rewrite indexOf_nil.
  - simpl in Ht. apply Forall_cons_iff in Ht as [Ht Hrest].
    change (flatten (Text t :: rest)) with (t ++ flatten rest).
    rewrite spec_replaceFirst_skip by now apply indexOf_skip_text.
    rewrite IH by exact Hrest. reflexivity.
  - simpl in Ht.
    change (flatten (Hole q :: rest)) with (placeholderText q ++ flatten rest).
    simpl fill. destruct (placeholder_eqb p q) eqn:E.
    + apply placeholder_eqb_eq in E. subst q. apply spec_replaceFirst_head.
    + assert (p <> q) by (intros ->; now destruct q).
      rewrite spec_replaceFirst_skip by now apply indexOf_skip_hole.
      rewrite IH by exact Ht. reflexivity.
Qed.

Lemma fill_texts p v pieces :
  lacks openBrace v ->
  Forall (lacks openBrace) (texts pieces) ->
  Forall (lacks openBrace) (texts (fill p v pieces)).
Proof.
  intros Hv. induction pieces as [|[t|q] rest IH]; simpl; intros Ht.
  - constructor.
  - apply Forall_cons_iff in Ht as [Ht Hrest]. constructor; auto.
  - destruct (placeholder_eqb p q); simpl; [constructor|]; auto.
Qed.

Lemma fill_holes_incl p v pieces q :
  In q (holes (fill p v pieces)) -> In q (holes pieces).
Proof.
  induction pieces as [|[t|r] rest IH]; simpl; [tauto | exact IH |].
  destruct (placeholder_eqb p r); simpl; tauto.
Qed.

Lemma fill_holes_gone p v pieces :
  NoDup (holes pieces) -> ~ In p (holes (fill p v pieces)).
Proof.
  induction pieces as [|[t|r] rest IH]; simpl; [tauto | exact IH |].
  intros Hn. apply NoDup_cons_iff in Hn as [Hr Hn].
  destruct (placeholder_eqb p r) eqn:E; simpl.
  - apply placeholder_eqb_eq in E. now subst r.
  - intros [->|H]; [now destruct p | now apply IH in H].
Qed.

Lemma fill_holes_nodup p v pieces :
  NoDup (holes pieces) -> NoDup (holes (fill p v pieces)).
Proof.
  induction pieces as [|[t|r] rest IH]; simpl; [tauto | exact IH |].
  intros Hn. apply NoDup_cons_iff in Hn as [Hr Hn].
  destruct (placeholder_eqb p r); simpl; [exact Hn|].
  constructor; [|now apply IH]. intros H. now apply fill_holes_incl in H.
Qed.

Lemma flatten_no_holes pieces :
  holes pieces = [] ->
  Forall (lacks openBrace) (texts pieces) ->
  lacks openBrace (flatten pieces).
Proof.
  induction pieces as [|[t|q] rest IH]; simpl; intros Hh Ht.
  - constructor.
  - apply Forall_cons_iff in Ht as [Ht Hrest].
    apply Forall_app. split; [exact Ht | now apply IH].
  - discriminate.
Qed.

Lemma indexOf_brace_free p s :
  lacks openBrace s -> indexOf (placeholderText p) s = None.
Proof.
  intros H. rewrite <- (app_nil_r s).
  rewrite indexOf_skip_text by exact H. now rewrite indexOf_nil.
Qed.

Lemma replace_brace_free p v s :
  lacks openBrace s -> replace (placeholderText p) v s = s.
Proof. intros H. unfold replace. now rewrite indexOf_brace_free. Qed.

(** On a tidy template and plain values the renderer fills every hole. *)
Lemma renderTemplate_flatten pieces key url title :
  Forall (lacks openBrace) (texts pieces) ->
  plainValue key -> plainValue url -> plainValue title ->
  renderTemplate (flatten pieces) key url title =
  flatten (fill Title title (fill Url url (fill FrontmatterKey key pieces))).
Proof.
  intros Ht [Bk Dk] [Bu Du] [Bt Dt]. unfold renderTemplate.
  rewrite !replace_plain by assumption.
  rewrite spec_replaceFirst_flatten by exact Ht.
  rewrite spec_replaceFirst_flatten by now apply fill_texts.
  rewrite spec_replaceFirst_flatten by now repeat apply fill_texts.
  reflexivity.
Qed.

(** C5, as amended: on a template whose only opening braces are those of
    its placeholders, none of them used more than once, and for a key, a
    URL and a title with no opening brace and no dollar sign in them,
    rendering the output again gives the output, and no placeholder occurs
    in the output. *)
Theorem renderTemplate_idempotent (pieces : list piece)
  (key url title : jsstring) :
  tidyTemplate pieces ->
  plainValue key -> plainValue url -> plainValue title ->
  renderTemplate (renderTemplate (flatten pieces) key url title) key url title
  = renderTemplate (flatten pieces) key url title
  /\ forall p,
       includes (placeholderText p)
         (renderTemplate (flatten pieces) key url title) = false.
Proof.
  intros [Ht Hn] Hk Hu Hv.
  rewrite (renderTemplate_flatten pieces key url title Ht Hk Hu Hv).
  set (filled := fill Title title (fill Url url (fill FrontmatterKey key pieces))).
  assert (B : lacks openBrace (flatten filled)).
  { apply flatten_no_holes.
    - destruct (holes filled) as [|q l] eqn:E; [reflexivity|].
      assert (Hq : In q (holes filled)) by (rewrite E; now left).
      exfalso. unfold filled in Hq. destruct q.
      + do 2 apply fill_holes_incl in Hq. revert Hq. now apply fill_holes_gone.
      + apply fill_holes_incl in Hq. revert Hq.
        now apply fill_holes_gone, fill_holes_nodup.
      + revert Hq. now apply fill_holes_gone; repeat apply fill_holes_nodup.
    - unfold filled. destruct Hk, Hu, Hv. now repeat apply fill_texts. }
  split.
  - unfold renderTemplate.
    now rewrite (replace_brace_free FrontmatterKey key _ B),
      (replace_brace_free Url url _ B), (replace_brace_free Title title _ B).
  - intros p. unfold includes. now rewrite indexOf_brace_free by exact B.
Qed.

Lemma lacks_check c s :
  forallb (fun d => negb (d =? c)%N) s = true -> lacks c s.
Proof.
  intros H. apply Forall_forall. intros d Hd.
  rewrite forallb_forall in H. apply H in Hd.
  apply negb_true_iff in Hd. now apply N.eqb_neq.
Qed.

Lemma plainValue_check v :
  forallb (fun d => negb (d =? openBrace)%N && negb (d =? dollar)%N) v = true ->
  plainValue v.
Proof.
  intros H. split; apply Forall_forall; intros d Hd;
    rewrite forallb_forall in H; apply H in Hd;
    apply andb_true_iff in Hd as [H1 H2];
    apply negb_true_iff in H1, H2; now apply N.eqb_neq.
Qed.

Example defaultTemplatePieces_flatten :
  flatten defaultTemplatePieces = template DEFAULT_SETTINGS.
Proof. reflexivity. Qed.

Lemma defaultTemplate_tidy : tidyTemplate defaultTemplatePieces.
Proof.
  split.
  - simpl texts.
    repeat (apply Forall_cons; [apply lacks_check; reflexivity|]).
    apply Forall_nil.
  - simpl holes. repeat constructor; simpl; intuition discriminate.
Qed.

Lemma renderTemplate_idempotent_witness :
  renderTemplate
    (renderTemplate (flatten defaultTemplatePieces) (str "url")
       (str "https://example.com/blog/my-post") (str "My Post Title"))
    (str "url") (str "https://example.com/blog/my-post") (str "My Post Title")
  = renderTemplate (flatten defaultTemplatePieces) (str "url")
      (str "https://example.com/blog/my-post") (str "My Post Title")
  /\ forall p,
       includes (placeholderText p)
         (renderTemplate (flatten defaultTemplatePieces) (str "url")
            (str "https://example.com/blog/my-post") (str "My Post Title"))
       = false.
Proof.
  apply (renderTemplate_idempotent defaultTemplatePieces (str "url")
           (str "https://example.com/blog/my-post") (str "My Post Title")).
  - exact defaultTemplate_tidy.
  - apply plainValue_check. reflexivity.
  - apply plainValue_check. reflexivity.
  - apply plainValue_check. reflexivity.
Defined.

(** C5, as stated, fails.  In the default template every placeholder
    occurs once; with a page title that has [{{title}}] in it the output
    still has that placeholder, and rendering the output again changes it.
    And in the template [{{u{{title}}l}}], where only the title
    placeholder occurs, the title [r] makes a URL placeholder that the
    second rendering replaces. *)
Lemma renderTemplate_not_idempotent :
  (forall p, occurrences (placeholderText p) (template DEFAULT_SETTINGS) = 1)
  /\ includes (placeholderText Title)
       (renderTemplate (template DEFAULT_SETTINGS) (str "url")
          (str "https://example.com/docs") (str "Using {{title}}")) = true
  /\ renderTemplate
       (renderTemplate (template DEFAULT_SETTINGS) (str "url")
          (str "https://example.com/docs") (str "Using {{title}}"))
       (str "url") (str "https://example.com/docs") (str "Using {{title}}")
     <> renderTemplate (template DEFAULT_SETTINGS) (str "url")
          (str "https://example.com/docs") (str "Using {{title}}")
  /\ (forall p, occurrences (placeholderText p) (str "{{u{{title}}l}}") <= 1)
  /\ renderTemplate (str "{{u{{title}}l}}") (str "url")
       (str "https://example.com/docs") (str "r") = str "{{url}}"
  /\ renderTemplate (str "{{url}}") (str "url")
       (str "https://example.com/docs") (str "r")
     = str "https://example.com/docs".
Proof.
  split; [intros []; reflexivity|].
  split; [reflexivity|].
  split; [vm_compute; discriminate|].
  split; [intros []; vm_compute; lia|].
  split; reflexivity.
Qed.

(** Without a dollar sign in the key, the URL and the title the renderer
    makes the three literal replacements, in the order key, URL, title,
    each of the first occurrence only. *)
Lemma renderTemplate_literal tpl key url title :
  lacks dollar key -> lacks dollar url -> lacks dollar title ->
  renderTemplate tpl key url title = spec_renderTemplate tpl key url title.
Proof.
  intros Hk Hu Ht. unfold renderTemplate, spec_renderTemplate.
  now rewrite !replace_plain.
Qed.

Example renderTemplate_first_only :
  renderTemplate (str "{{url}} {{url}}") (str "url") (str "https://a.example/")
    (str "A")
  = str "https://a.example/ {{url}}".
Proof. reflexivity. Qed.

(** C4 at the input where the code departs from it: the title
    [Save $$ now] is not put into the note as it stands; the renderer reads
    [$$] as the pattern for one dollar sign.  The literal replacement keeps
    the title. *)
Theorem renderTemplate_dollar_title :
  renderTemplate (template DEFAULT_SETTINGS) (str "url")
    (str "https://example.com/deals") (str "Save $$ now")
  = str "---" ++ [newline] ++ str "url: https://example.com/deals"
    ++ [newline] ++ str "---" ++ [newline; newline] ++ str "# Save $ now"
    ++ [newline; newline]
  /\ spec_renderTemplate (template DEFAULT_SETTINGS) (str "url")
       (str "https://example.com/deals") (str "Save $$ now")
     = str "---" ++ [newline] ++ str "url: https://example.com/deals"
       ++ [newline] ++ str "---" ++ [newline; newline] ++ str "# Save $$ now"
       ++ [newline; newline]
  /\ includes (str "Save $$ now")
       (renderTemplate (template DEFAULT_SETTINGS) (str "url")
          (str "https://example.com/deals") (str "Save $$ now")) = false.
Proof. repeat split. Qed.

(** ** Note Placer: properties *)

Lemma join_split s : join (split slash s) = s.
Proof.
  induction s as [|c s IH]; [reflexivity|]. simpl split.
  pose proof (split_nonempty slash s) as Hn.
  destruct (c =? slash)%N eqn:E.
  - apply N.eqb_eq in E. subst c.
    destruct (split slash s) as [|seg segs]; [contradiction|].
    simpl in *. now rewrite IH.
  - destruct (split slash s) as [|seg segs]; [contradiction|].
    destruct segs; simpl in *; now rewrite <- IH.
Qed.

(** Every code unit of a string is the separator or in one of the pieces. *)
Lemma split_covers sep s c :
  In c s -> c = sep \/ exists seg, In seg (split sep s) /\ In c seg.
Proof.
  induction s as [|d s IH]; [contradiction|]. simpl split.
  pose proof (split_nonempty sep s) as Hn.
  intros [->|H].
  - destruct (c =? sep)%N eqn:E; [left; now apply N.eqb_eq|].
    right. destruct (split sep s) as [|seg segs]; [contradiction|].
    exists (c :: seg). split; now left.
  - apply IH in H as [->|(seg & Hseg & Hc)]; [now left|]. right.
    destruct (d =? sep)%N.
    + exists seg. split; [now right | exact Hc].
    + destruct (split sep s) as [|seg0 segs]; [contradiction|].
      destruct Hseg as [->|Hseg].
      * exists (d :: seg). split; [now left | now right].
      * exists seg. split; [now right | exact Hc].
Qed.

(** The separator normaliser leaves a plain path as it is. *)
Lemma separatorNormalizer_plain path :
  plainPath path = true -> separatorNormalizer path = path.
Proof.
  intros H. unfold separatorNormalizer, plainPath in *.
  rewrite forallb_forall in H.
  assert (M : map (fun c => if (c =? 92)%N then slash else c) path = path).
  { rewrite <- (map_id path) at 2. apply map_ext_in. intros c Hc.
    destruct (c =? 92)%N eqn:E; [|reflexivity]. exfalso.
    apply N.eqb_eq in E. subst c.
    apply (split_covers slash) in Hc as [Hc|(seg & Hseg & Hc)]; [discriminate|].
    apply H in Hseg. unfold plainSegment in Hseg.
    apply andb_true_iff in Hseg as [_ Hseg].
    rewrite forallb_forall in Hseg. apply Hseg in Hc. discriminate. }
  rewrite M.
  assert (F : filter truthy (split slash path) = split slash path).
  { apply forallb_filter_id. apply forallb_forall. intros seg Hseg.
    apply H in Hseg. unfold plainSegment in Hseg.
    now apply andb_true_iff in Hseg as [Hseg _]. }
  rewrite F. pose proof (split_nonempty slash path).
  destruct (split slash path) eqn:E; [contradiction|].
  rewrite <- E. apply join_split.
Qed.

Lemma double_slash_free s :
  forallb plainSegment (tl (split slash s)) = true ->
  includes (str "//") s = false.
Proof.
  unfold includes.
  enough (forallb plainSegment (tl (split slash s)) = true ->
          indexOf (str "//") s = None) as E by (intros H; now rewrite E).
  induction s as [|c s IH]; [reflexivity|].
  simpl split. pose proof (split_nonempty slash s) as Hn.
  unfold indexOf; fold indexOf.
  destruct (c =? slash)%N eqn:E.
  - simpl tl. intros H. apply N.eqb_eq in E. subst c.
    assert (S : startsWith (str "//") (slash :: s) = false).
    { destruct s as [|d s']; [reflexivity|].
      change (str "//") with [slash; slash]. cbn [startsWith].
      rewrite N.eqb_refl, andb_true_l, andb_true_r.
      simpl split in H. destruct (d =? slash)%N eqn:Ed; [|now rewrite N.eqb_sym].
      simpl in H. discriminate. }
    rewrite S, IH; [reflexivity|].
    destruct (split slash s) as [|seg segs]; [contradiction|].
    simpl in *. now apply andb_true_iff in H as [_ H].
  - assert (S : startsWith (str "//") (c :: s) = false).
    { change (str "//") with [slash; slash]. cbn [startsWith].
      rewrite N.eqb_sym in E. now rewrite E. }
    rewrite S. destruct (split slash s) as [|seg segs]; [contradiction|].
    simpl tl in *. intros H. now rewrite IH.
Qed.

Lemma plainPath_no_double_slash path :
  plainPath path = true -> includes (str "//") path = false.
Proof.
  intros H. apply double_slash_free. unfold plainPath in H.
  destruct (split slash path); [reflexivity|].
  simpl in *. now apply andb_true_iff in H as [_ H].
Qed.

(** A file name made of word characters, hyphens and em-dashes, with the
    extension, below [Inbox/URLs] is a plain path. *)
Lemma inbox_path_plain name :
  (forall c, In c name -> isWord c = true \/ c = hyphen \/ c = emDash) ->
  plainPath (str "Inbox/URLs" ++ [slash] ++ name ++ str ".md") = true.
Proof.
  intros H. unfold plainPath.
  assert (Hc : forallb (fun c => isWord c || (c =? hyphen)%N
                                 || (c =? emDash)%N || (c =? 46)%N) name = true).
  { apply forallb_forall. intros c Hc. apply H in Hc as [Hc|[->| ->]];
      [now rewrite Hc | reflexivity | reflexivity]. }
  assert (Hs : Forall (fun c => c <> slash) (name ++ str ".md")).
  { apply Forall_app. split.
    - apply Forall_forall. intros c Hin ->. apply H in Hin.
      destruct Hin as [Hin|[Hin|Hin]]; discriminate.
    - repeat constructor; discriminate. }
  change (str "Inbox/URLs" ++ [slash] ++ name ++ str ".md")
    with (str "Inbox" ++ slash :: (str "URLs" ++ slash :: (name ++ str ".md"))).
  rewrite !split_app_sep, (split_plain _ _ Hs).
  change (split slash (str "Inbox")) with [str "Inbox"].
  change (split slash (str "URLs")) with [str "URLs"].
  simpl app. cbn [forallb]. rewrite andb_true_r.
  change (plainSegment (str "Inbox")) with true.
  change (plainSegment (str "URLs")) with true.
  simpl andb. unfold plainSegment. rewrite forallb_app, Hc.
  destruct name; reflexivity.
Qed.

Section CustomLocation.

Variable host : Host.

(** What is asked of the host's path normaliser: a plain path is already
    normal. *)
Hypothesis normalizePath_plain :
  forall path, plainPath path = true -> normalizePath host path = path.

(** C9: with the note location [custom] the path of the note is the custom
    location, a slash and the file name, normalised by the host.  For the
    custom location [Inbox/URLs] and the file name either sanitiser makes
    of a title, that is [Inbox/URLs/<name>.md], with no two separators in a
    row. *)
Theorem getNotePath_custom (settings : UrlDropperSettings) (title : jsstring) :
  noteLocation settings = LocationCustom ->
  (forall fileName,
     getNotePath host settings fileName =
     normalizePath host (customNoteLocation settings ++ [slash] ++ fileName))
  /\ (customNoteLocation settings = str "Inbox/URLs" ->
      forall name,
        name = sanitizeFileName title \/ name = sanitizeFileName_minimal title ->
        getNotePath host settings (name ++ str ".md")
        = str "Inbox/URLs/" ++ name ++ str ".md"
        /\ includes (str "//") (getNotePath host settings (name ++ str ".md"))
           = false).
Proof.
  intros Hloc. unfold getNotePath. rewrite Hloc. split; [reflexivity|].
  intros -> name Hname.
  assert (P : plainPath (str "Inbox/URLs" ++ [slash] ++ name ++ str ".md") = true).
  { apply inbox_path_plain. intros c Hc. destruct Hname as [-> | ->].
    - apply sanitizeFileName_alphabet in Hc. tauto.
    - apply minimal_alphabet in Hc. tauto. }
  rewrite (normalizePath_plain _ P). split; [reflexivity|].
  now apply plainPath_no_double_slash.
Qed.

End CustomLocation.

Lemma getNotePath_custom_witness :
  (forall fileName,
     getNotePath exampleHost
       {| template := template DEFAULT_SETTINGS; frontmatterKey := str "url";
          noteLocation := LocationCustom;
          customNoteLocation := str "Inbox/URLs"; openNewNote := false |}
       fileName
     = separatorNormalizer (str "Inbox/URLs" ++ [slash] ++ fileName))
  /\ getNotePath exampleHost
       {| template := template DEFAULT_SETTINGS; frontmatterKey := str "url";
          noteLocation := LocationCustom;
          customNoteLocation := str "Inbox/URLs"; openNewNote := false |}
       (sanitizeFileName (str "My Post Title") ++ str ".md")
     = str "Inbox/URLs/my-post-title.md".
Proof.
  pose proof (getNotePath_custom exampleHost separatorNormalizer_plain
                {| template := template DEFAULT_SETTINGS;
                   frontmatterKey := str "url";
                   noteLocation := LocationCustom;
                   customNoteLocation := str "Inbox/URLs";
                   openNewNote := false |}
                (str "My Post Title") eq_refl) as [H1 H2].
  split; [exact H1|].
  exact (proj1 (H2 eq_refl (sanitizeFileName (str "My Post Title"))
                  (or_introl eq_refl))).
Defined.

(** ** Error reporting: properties *)

Lemma includes_app p a b : includes p (a ++ p ++ b) = true.
Proof.
  unfold includes.
  enough (exists pos, indexOf p (a ++ p ++ b) = Some pos) as (pos & ->)
    by reflexivity.
  induction a as [|c a (pos & IH)].
  - exists 0. change ([] ++ p ++ b) with (p ++ b). apply indexOf_head.
  - change ((c :: a) ++ p ++ b) with (c :: (a ++ p ++ b)).
    unfold indexOf; fold indexOf. rewrite IH.
    destruct (startsWith p (c :: a ++ p ++ b)); eexists; reflexivity.
Qed.

(** A conversion that is resumed was waiting; it either waits again,
    with no update of the counter, or ends with the one decrement of the
    [finally] block. *)
Lemma resume_shape host settings t ev r :
  MultiUrl.resume host settings t ev = Some r ->
  isSettled t = false
  /\ ((isSettled (next r) = false /\ updates r = [])
      \/ (next r = Settled /\ updates r = [MultiUrl.decrement])).
Proof.
  unfold MultiUrl.resume. intros H.
  destruct t; (split; [try reflexivity; discriminate|]);
    destruct ev as [[?|?]|[[?|]|?]|[?|?]|[?|?]]; try discriminate;
    try (injection H as <-; simpl; tauto).
  - destruct (prepareNote _ _ _ _ _) as [[? ?]|];
      injection H as <-; simpl; tauto.
  - destruct (openNewNote settings && value); injection H as <-; simpl; tauto.
Qed.

(** C3, as amended: when the promise a conversion waits for is rejected,
    the conversion ends.  If the error is an [Error] whose message has
    [already exists] in it, as that of the host for a path that is taken,
    the one notice is shown for 10000 ms and names the dropped URL, not the
    title; for every other error the notice is the generic one, with the
    default duration, and the error goes to the console.  The errors thrown
    inside the pipeline itself (a URL that cannot be encoded or parsed, a
    response without properties) are of that second kind. *)
Theorem rejection_notices (host : Host) (settings : UrlDropperSettings)
  (t : task) (ev : event) (error : thrown) (r : reaction) :
  MultiUrl.rejection ev = Some error ->
  MultiUrl.resume host settings t ev = Some r ->
  next r = Settled
  /\ emitted r =
     (if MultiUrl.saysAlreadyExists error then
        [Notice (str "URL: " ++ MultiUrl.taskUrl t ++ [newline]
                 ++ str "Error: Note with this title already exists")
           (Some 10000%N)]
      else
        [Notice (str "Error processing URL. Please try again.") None;
         ConsoleError (str "Error processing URL:") error])
  /\ includes (MultiUrl.taskUrl t)
       (str "URL: " ++ MultiUrl.taskUrl t ++ [newline]
        ++ str "Error: Note with this title already exists") = true
  /\ MultiUrl.saysAlreadyExists fileExistsError = true
  /\ (forall url,
        encodeURIComponent url = None ->
        emitted (MultiUrl.processDroppedUrl url)
        = [Notice (str "Error processing URL. Please try again.") None;
           ConsoleError (str "Error processing URL:") uriError])
  /\ (forall url,
        option_map emitted
          (MultiUrl.resume host settings (AwaitJson url)
             (JsonSettled (Resolved None)))
        = Some [Notice (str "Error processing URL. Please try again.") None;
                ConsoleError (str "Error processing URL:") nullPropertyError])
  /\ (forall url html,
        prepareNote sanitizeFileName host settings url html = None ->
        option_map emitted
          (MultiUrl.resume host settings (AwaitJson url)
             (JsonSettled (Resolved (Some html))))
        = Some [Notice (str "Error processing URL. Please try again.") None;
                ConsoleError (str "Error processing URL:") invalidUrlError]).
Proof.
  intros Hev Hr.
  split; [|split; [|split; [|split; [|split; [|split]]]]].
  - destruct t, ev as [[?|?]|[[?|]|?]|[?|?]|[?|?]]; try discriminate;
      injection Hev as <-; injection Hr as <-; reflexivity.
  - destruct t, ev as [[?|?]|[[?|]|?]|[?|?]|[?|?]]; try discriminate;
      injection Hev as <-; injection Hr as <-; reflexivity.
  - apply includes_app.
  - reflexivity.
  - intros url E. unfold MultiUrl.processDroppedUrl. now rewrite E.
  - reflexivity.
  - intros url html E. simpl. now rewrite E.
Qed.

Lemma rejection_notices_witness :
  emitted (MultiUrl.failed (str "https://example.com/blog/my-post") fileExistsError)
  = [Notice (str "URL: https://example.com/blog/my-post" ++ [newline]
             ++ str "Error: Note with this title already exists")
       (Some 10000%N)].
Proof.
  exact (proj1 (proj2
    (rejection_notices exampleHost DEFAULT_SETTINGS
       (AwaitCreate (str "https://example.com/blog/my-post")
          (str "my-post-title.md"))
       (CreateSettled (Rejected fileExistsError)) fileExistsError
       (MultiUrl.failed (str "https://example.com/blog/my-post") fileExistsError)
       eq_refl eq_refl))).
Defined.

(** C3, as stated, fails: the page [My Post Title] is fetched, its note
    [my-post-title.md] exists, and the notice names neither the title nor
    the file. *)
Lemma notice_without_title :
  option_map log
    (MultiUrl.run exampleHost DEFAULT_SETTINGS
       [(0, FetchSettled (Resolved tt));
        (0, JsonSettled (Resolved (Some (str "<title>My Post Title</title>"))));
        (0, CreateSettled (Rejected fileExistsError))]
       (MultiUrl.handleDrop (str "https://example.com/blog/my-post") mounted))
  = Some
      [Fetch (str "https://api.allorigins.win/get?url=https%3A%2F%2Fexample.com%2Fblog%2Fmy-post");
       VaultCreate (str "my-post-title.md")
         (str "---" ++ [newline] ++ str "url: https://example.com/blog/my-post"
          ++ [newline] ++ str "---" ++ [newline; newline]
          ++ str "# My Post Title" ++ [newline; newline]);
       Notice (str "URL: https://example.com/blog/my-post" ++ [newline]
               ++ str "Error: Note with this title already exists")
         (Some 10000%N)]
  /\ includes (str "My Post Title")
       (str "URL: https://example.com/blog/my-post" ++ [newline]
        ++ str "Error: Note with this title already exists") = false
  /\ includes (str "my-post-title")
       (str "URL: https://example.com/blog/my-post" ++ [newline]
        ++ str "Error: Note with this title already exists") = false.
Proof. repeat split. Qed.

(** ** The in-flight counter: properties *)

Lemma inFlight_app c t :
  length (filter waiting (tasks c ++ [t])) =
  inFlight c + (if waiting t then 1 else 0).
Proof.
  unfold inFlight. rewrite filter_app, length_app. simpl.
  destruct (waiting t); reflexivity.
Qed.

Lemma processDroppedUrl_shape url :
  (isSettled (next (MultiUrl.processDroppedUrl url)) = false
   /\ updates (MultiUrl.processDroppedUrl url) = [MultiUrl.increment])
  \/ (next (MultiUrl.processDroppedUrl url) = Settled
      /\ updates (MultiUrl.processDroppedUrl url)
         = [MultiUrl.increment; MultiUrl.decrement]).
Proof.
  unfold MultiUrl.processDroppedUrl.
  destruct (encodeURIComponent url); simpl; tauto.
Qed.

Lemma spawn_counted url c :
  counted c -> counted (spawn (MultiUrl.processDroppedUrl url) c).
Proof.
  intros [Hh Hc]. unfold counted, processingCount in *.
  unfold inFlight at 1. unfold spawn. cbn [history tasks].
  rewrite (inFlight_app c).
  destruct (processDroppedUrl_shape url) as [[Hn ->]|[-> ->]];
    unfold waiting; [rewrite Hn|]; cbn -[Z.of_nat inFlight];
    unfold setProcessingCount, MultiUrl.increment, MultiUrl.decrement;
    cbn [hd].
  - split; [constructor; [lia | exact Hh] | lia].
  - split; [do 2 (constructor; [lia|]); exact Hh | lia].
Qed.

Lemma setNth_waiting i t t' ts :
  nth_error ts i = Some t ->
  length (filter waiting (setNth i t' ts)) + (if waiting t then 1 else 0)
  = length (filter waiting ts) + (if waiting t' then 1 else 0).
Proof.
  revert i. induction ts as [|u ts IH]; intros [|i] H; try discriminate.
  - injection H as ->. simpl. destruct (waiting t), (waiting t'); simpl; lia.
  - simpl in H. apply IH in H. simpl. destruct (waiting u); simpl; lia.
Qed.

Lemma nth_waiting i t ts :
  nth_error ts i = Some t -> waiting t = true ->
  1 <= length (filter waiting ts).
Proof.
  revert i. induction ts as [|u ts IH]; intros [|i] H W; try discriminate.
  - injection H as ->. simpl. rewrite W. simpl. lia.
  - simpl in H. specialize (IH _ H W). simpl. destruct (waiting u); simpl; lia.
Qed.

Lemma deliver_counted host settings i ev c c' :
  counted c ->
  deliver (MultiUrl.resume host settings) i ev c = Some c' ->
  counted c'.
Proof.
  intros [Hh Hc]. unfold deliver.
  destruct (nth_error (tasks c) i) as [t|] eqn:Ht; [|discriminate].
  destruct (MultiUrl.resume host settings t ev) as [r|] eqn:Hr; [|discriminate].
  intros [= <-]. apply resume_shape in Hr as [Hw Hr].
  pose proof (setNth_waiting i t (next r) _ Ht) as Hs.
  assert (W : waiting t = true) by (unfold waiting; now rewrite Hw).
  pose proof (nth_waiting _ _ _ Ht W) as H1.
  unfold counted, processingCount, inFlight in *. cbn [history tasks].
  rewrite W in Hs.
  destruct Hr as [[Hn ->]|[Hn ->]].
  - assert (W' : waiting (next r) = true) by (unfold waiting; now rewrite Hn).
    rewrite W' in Hs. simpl. split; [exact Hh | lia].
  - rewrite Hn in Hs |- *. cbn -[Z.of_nat] in *.
    unfold setProcessingCount, MultiUrl.decrement. cbn [hd].
    split; [constructor; [lia | exact Hh] | lia].
Qed.

Lemma handleDrop_counted payload c :
  counted c -> counted (MultiUrl.handleDrop payload c).
Proof.
  unfold MultiUrl.handleDrop. generalize (MultiUrl.droppedUrls payload).
  intros urls. revert c. induction urls as [|url urls IH]; intros c H.
  - exact H.
  - simpl. apply IH. now apply spawn_counted.
Qed.

Lemma reachable_counted host settings c :
  MultiUrl.reachable host settings c -> counted c.
Proof.
  induction 1 as [|c payload _ IH|c i ev c' _ IH Hd].
  - split; [repeat constructor; lia | reflexivity].
  - now apply handleDrop_counted.
  - exact (deliver_counted _ _ _ _ _ _ IH Hd).
Qed.

Lemma settled_inFlight c :
  forallb isSettled (tasks c) = true -> inFlight c = 0.
Proof.
  unfold inFlight. induction (tasks c) as [|t ts IH]; [reflexivity|].
  simpl. intros H. apply andb_true_iff in H as [Ht H].
  unfold waiting at 1. rewrite Ht. simpl. now apply IH.
Qed.

(** A drop of URLs that can all be encoded raises the counter by their
    number. *)
Lemma spawn_all_count urls c :
  Forall (fun url => encodeURIComponent url <> None) urls ->
  processingCount
    (fold_left (fun c url => spawn (MultiUrl.processDroppedUrl url) c) urls c)
  = (processingCount c + Z.of_nat (length urls))%Z.
Proof.
  intros H. revert c. induction H as [|url urls Hu _ IH]; intros c.
  - simpl. lia.
  - cbn [fold_left length]. rewrite IH.
    unfold MultiUrl.processDroppedUrl.
    destruct (encodeURIComponent url); [|contradiction].
    unfold processingCount, spawn. cbn -[Z.of_nat].
    unfold setProcessingCount, MultiUrl.increment. cbn [hd]. lia.
Qed.

(** A drop never raises the counter by more than the number of URLs. *)
Lemma spawn_all_bound urls c :
  (processingCount
     (fold_left (fun c url => spawn (MultiUrl.processDroppedUrl url) c) urls c)
   <= processingCount c + Z.of_nat (length urls))%Z.
Proof.
  revert c. induction urls as [|url urls IH]; intros c.
  - simpl. lia.
  - cbn [fold_left length]. etransitivity; [apply IH|].
    unfold MultiUrl.processDroppedUrl.
    destruct (encodeURIComponent url);
      unfold processingCount, spawn; cbn -[Z.of_nat];
      unfold setProcessingCount, MultiUrl.increment, MultiUrl.decrement;
      cbn [hd]; lia.
Qed.

(** C6, as amended.  A call of [processDroppedUrl] increments the counter
    once; a conversion decrements it once, when it ends, with a note or
    with an error, and not before.  So in every state the component
    can reach the counter never was negative and is the number of
    conversions that have not ended, which is 0 when all have.  A drop of N
    URLs raises the counter by N when every one of them can be
    percent-encoded, and never by more. *)
Theorem processingCount_in_flight (host : Host) (settings : UrlDropperSettings)
  (c : Component) :
  MultiUrl.reachable host settings c ->
  Forall (fun v => (0 <= v)%Z) (history c)
  /\ processingCount c = Z.of_nat (inFlight c)
  /\ (forallb isSettled (tasks c) = true -> processingCount c = 0%Z)
  /\ (forall payload,
        Forall (fun url => encodeURIComponent url <> None)
          (MultiUrl.droppedUrls payload) ->
        processingCount (MultiUrl.handleDrop payload c)
        = (processingCount c
           + Z.of_nat (length (MultiUrl.droppedUrls payload)))%Z)
  /\ (forall payload,
        (processingCount (MultiUrl.handleDrop payload c)
         <= processingCount c
            + Z.of_nat (length (MultiUrl.droppedUrls payload)))%Z)
  /\ (forall url,
        (isSettled (next (MultiUrl.processDroppedUrl url)) = false
         /\ updates (MultiUrl.processDroppedUrl url) = [MultiUrl.increment])
        \/ (next (MultiUrl.processDroppedUrl url) = Settled
            /\ updates (MultiUrl.processDroppedUrl url)
               = [MultiUrl.increment; MultiUrl.decrement]))
  /\ (forall t ev r,
        MultiUrl.resume host settings t ev = Some r ->
        isSettled t = false
        /\ ((isSettled (next r) = false /\ updates r = [])
            \/ (next r = Settled /\ updates r = [MultiUrl.decrement]))).
Proof.
  intros Hr. destruct (reachable_counted _ _ _ Hr) as [Hh Hc].
  split; [exact Hh|]. split; [exact Hc|]. split; [|split; [|split; [|split]]].
  - intros Hs. rewrite Hc, (settled_inFlight _ Hs). reflexivity.
  - intros payload. apply spawn_all_count.
  - intros payload. apply spawn_all_bound.
  - apply processDroppedUrl_shape.
  - intros t ev r. apply resume_shape.
Qed.

Lemma encodable_check urls :
  forallb (fun url => match encodeURIComponent url with
                      | Some _ => true
                      | None => false
                      end) urls = true ->
  Forall (fun url => encodeURIComponent url <> None) urls.
Proof.
  intros H. apply Forall_forall. intros url Hu.
  rewrite forallb_forall in H. apply H in Hu.
  destruct (encodeURIComponent url); [discriminate | discriminate].
Qed.

Lemma processingCount_in_flight_witness :
  processingCount
    (MultiUrl.handleDrop
       (str "https://example.com/blog/my-post" ++ [newline]
        ++ str "https://example.com/articles/")
       mounted)
  = 2%Z.
Proof.
  refine (proj1 (proj2 (proj2 (proj2
    (processingCount_in_flight exampleHost DEFAULT_SETTINGS mounted
       (MultiUrl.reach_mounted exampleHost DEFAULT_SETTINGS)))))
    (str "https://example.com/blog/my-post" ++ [newline]
     ++ str "https://example.com/articles/") _).
  apply encodable_check. vm_compute. reflexivity.
Defined.

(** C6, as stated, fails: of the two URLs of this drop the first is a
    surrogate code unit with no partner, which [encodeURIComponent]
    refuses.  Its conversion ends, and decrements the counter, before the
    second one starts: the counter goes 0, 1, 0, 1 and, when the fetch of
    the second has failed, 0; it is never 2. *)
Lemma processingCount_short_of_two :
  length (MultiUrl.droppedUrls
            ([55296%N; newline] ++ str "https://example.com/blog/my-post")) = 2
  /\ history
       (MultiUrl.handleDrop
          ([55296%N; newline] ++ str "https://example.com/blog/my-post")
          mounted)
     = [1; 0; 1; 0]%Z
  /\ option_map history
       (MultiUrl.run exampleHost DEFAULT_SETTINGS
          [(1, FetchSettled (Rejected NotAnError))]
          (MultiUrl.handleDrop
             ([55296%N; newline] ++ str "https://example.com/blog/my-post")
             mounted))
     = Some [0; 1; 0; 1; 0]%Z.
Proof. repeat split. Qed.

Example two_conversions_settle :
  option_map (fun c => (history c, tasks c))
    (MultiUrl.run exampleHost DEFAULT_SETTINGS
       [(0, FetchSettled (Resolved tt));
        (1, FetchSettled (Rejected (ErrorObject (str "Failed to fetch"))));
        (0, JsonSettled (Resolved (Some (str "<title>My Post Title</title>"))));
        (0, CreateSettled (Resolved true))]
       (MultiUrl.handleDrop
          (str "https://example.com/blog/my-post" ++ [newline]
           ++ str "https://example.com/articles/")
          mounted))
  = Some ([0; 1; 2; 1; 0]%Z, [Settled; Settled]).
Proof. reflexivity. Qed.

(** ** The drop handler: properties *)

Lemma split_incl sep s seg c : In seg (split sep s) -> In c seg -> In c s.
Proof.
  revert seg. induction s as [|d s IH]; intros seg.
  - simpl. intros [<-|[]]. tauto.
  - simpl split. pose proof (split_nonempty sep s) as Hn.
    destruct (d =? sep)%N.
    + intros [<-|H] Hc; [contradiction|]. right. now apply (IH seg).
    + destruct (split sep s) as [|seg0 segs]; [contradiction|].
      intros [<-|H] Hc.
      * destruct Hc as [->|Hc]; [now left|]. right.
        apply (IH seg0); [now left | exact Hc].
      * right. apply (IH seg); [now right | exact Hc].
Qed.

(** A payload of white space has no URL in it. *)
Lemma droppedUrls_blank payload :
  forallb isSpace payload = true -> MultiUrl.droppedUrls payload = [].
Proof.
  intros H. unfold MultiUrl.droppedUrls.
  rewrite forallb_forall in H.
  assert (F : forall seg, In seg (split newline payload) ->
                          truthy (trim seg) = false).
  { intros seg Hseg.
    assert (E : trim seg = []).
    { apply trim_nil_iff, forallb_forall. intros c Hc.
      apply H. exact (split_incl _ _ _ _ Hseg Hc). }
    now rewrite E. }
  induction (split newline payload) as [|seg segs IH]; [reflexivity|].
  simpl. rewrite (F seg (or_introl eq_refl)). apply IH.
  intros seg' Hs. apply F. now right.
Qed.

(** C10, as amended: in the multi-URL variant a drop whose text is empty
    or white space only changes nothing: no conversion starts, nothing is
    fetched, created or shown, the counter stays.  In the single-URL
    variant that holds for the empty text. *)
Theorem handleDrop_blank (payload : jsstring) (c : Component) :
  forallb isSpace payload = true ->
  MultiUrl.handleDrop payload c = c /\ SingleUrl.handleDrop [] c = c.
Proof.
  intros H. split; [|reflexivity].
  unfold MultiUrl.handleDrop. now rewrite droppedUrls_blank.
Qed.

Lemma handleDrop_blank_witness :
  MultiUrl.handleDrop [32%N; newline; 9%N; 32%N; newline] mounted = mounted
  /\ SingleUrl.handleDrop [] mounted = mounted.
Proof.
  apply (handleDrop_blank [32%N; newline; 9%N; 32%N; newline] mounted).
  reflexivity.
Defined.

(** C10, as stated, fails: in the single-URL variant a drop of one space
    starts a conversion, which fetches. *)
Lemma handleDrop_single_space :
  forallb isSpace (str " ") = true
  /\ SingleUrl.handleDrop (str " ") mounted
     = {| history := [0%Z];
          tasks := [AwaitFetch (str " ")];
          log := [Fetch (str "https://api.allorigins.win/get?url=%20")] |}.
Proof. split; reflexivity. Qed.

(** * Further properties of the code *)

(** ** Filename Sanitizer: slugs *)

Lemma dropWhile_no_space s :
  (forall c, In c s -> isSpace c = false) -> dropWhile isSpace s = s.
Proof.
  destruct s as [|c t]; [reflexivity|]. intros H. simpl.
  now rewrite (H c (or_introl eq_refl)).
Qed.

Lemma trimEnd_no_space s :
  (forall c, In c s -> isSpace c = false) -> trimEnd s = s.
Proof.
  induction s as [|c t IH]; [reflexivity|]. intros H. simpl.
  rewrite IH by (intros d Hd; apply H; now right).
  destruct t; [|reflexivity]. now rewrite (H c (or_introl eq_refl)).
Qed.

Lemma trim_no_space s :
  (forall c, In c s -> isSpace c = false) -> trim s = s.
Proof.
  intros H. unfold trim, trimStart. rewrite dropWhile_no_space by exact H.
  now apply trimEnd_no_space.
Qed.

Lemma collapseSpaces_no_space_id s :
  (forall c, In c s -> isSpace c = false) -> collapseSpaces s = s.
Proof.
  induction s as [|c t IH]; intros H; [now simp collapseSpaces|].
  rewrite collapseSpaces_cons, (H c (or_introl eq_refl)).
  rewrite IH; [reflexivity|]. intros d Hd. apply H. now right.
Qed.

(** Without white space the dash normalisation works code unit by code
    unit. *)
Lemma normalizeDashes_no_space s :
  (forall c, In c s -> isSpace c = false) ->
  normalizeDashes s = map (fun c => if (c =? hyphen)%N then emDash else c) s.
Proof.
  induction s as [|c t IH]; intros H; [now simp normalizeDashes|].
  assert (Ht : forall d, In d t -> isSpace d = false)
    by (intros d Hd; apply H; now right).
  pose proof (H c (or_introl eq_refl)) as Hc.
  rewrite normalizeDashes_cons. unfold matchDash. simpl dropWhile. rewrite Hc.
  simpl map. destruct (c =? hyphen)%N.
  - rewrite (dropWhile_no_space _ Ht). now rewrite IH.
  - now rewrite IH.
Qed.

(** X1: the minimal sanitiser is idempotent, and it leaves a string of word
    characters and hyphens as it is. *)
Theorem sanitizeFileName_minimal_idempotent (title : jsstring) :
  sanitizeFileName_minimal (sanitizeFileName_minimal title)
  = sanitizeFileName_minimal title
  /\ ((forall c, In c title -> isWord c = true \/ c = hyphen) ->
      sanitizeFileName_minimal title = title).
Proof.
  assert (K : forall s, (forall c, In c s -> isWord c = true \/ c = hyphen) ->
                        sanitizeFileName_minimal s = s).
  { intros s H.
    assert (Hs : forall c, In c s -> isSpace c = false).
    { intros c Hc. destruct (H c Hc) as [Hw| ->];
        [now apply word_not_space | reflexivity]. }
    unfold sanitizeFileName_minimal, stripMinimal.
    rewrite forallb_filter_id.
    - rewrite trim_no_space by exact Hs. now apply collapseSpaces_no_space_id.
    - apply forallb_forall. intros c Hc. destruct (H c Hc) as [Hw| ->];
        [now rewrite Hw | reflexivity]. }
  split; [|apply K]. apply K. intros c. apply minimal_alphabet.
Qed.

(** X2: the extended sanitiser is not idempotent: applied to its own
    output it turns every hyphen, which stood for white space, into an
    em-dash, and changes nothing else; a third application changes
    nothing. *)
Theorem sanitizeFileName_twice (title : jsstring) :
  sanitizeFileName (sanitizeFileName title)
  = map (fun c => if (c =? hyphen)%N then emDash else c)
      (sanitizeFileName title)
  /\ sanitizeFileName (sanitizeFileName (sanitizeFileName title))
     = sanitizeFileName (sanitizeFileName title).
Proof.
  assert (K : forall s,
             (forall c, In c s ->
                (isWord c = true /\ inRange 65 90 c = false)
                \/ c = hyphen \/ c = emDash) ->
             sanitizeFileName s
             = map (fun c => if (c =? hyphen)%N then emDash else c) s).
  { intros s H.
    assert (Hs : forall c, In c s -> isSpace c = false).
    { intros c Hc. destruct (H c Hc) as [[Hw _]|[->| ->]];
        [now apply word_not_space | reflexivity | reflexivity]. }
    set (d := map (fun c => if (c =? hyphen)%N then emDash else c) s).
    assert (Hd : forall c, In c d ->
                   (isWord c = true /\ inRange 65 90 c = false) \/ c = emDash).
    { intros c Hc. apply in_map_iff in Hc as (b & <- & Hb).
      destruct (H b Hb) as [[Hw Hu]|[->| ->]]; [|now right|now right].
      destruct (b =? hyphen)%N; [now right | now left]. }
    assert (Hds : forall c, In c d -> isSpace c = false).
    { intros c Hc. destruct (Hd c Hc) as [[Hw _]| ->];
        [now apply word_not_space | reflexivity]. }
    unfold sanitizeFileName. rewrite normalizeDashes_no_space by exact Hs.
    fold d. unfold stripExtended. rewrite forallb_filter_id.
    - rewrite trim_no_space, collapseSpaces_no_space_id by exact Hds.
      unfold toLowerCase. rewrite <- (map_id d) at 2. apply map_ext_in.
      intros c Hc. unfold lowerChar.
      destruct (Hd c Hc) as [[_ Hu]| ->]; [now rewrite Hu | reflexivity].
    - apply forallb_forall. intros c Hc.
      destruct (Hd c Hc) as [[Hw _]| ->]; [now rewrite Hw | reflexivity]. }
  pose proof (K _ (sanitizeFileName_alphabet title)) as E1.
  split; [exact E1|].
  rewrite E1.
  set (d := map (fun c => if (c =? hyphen)%N then emDash else c)
              (sanitizeFileName title)).
  assert (Hd : forall c, In c d ->
                 (isWord c = true /\ inRange 65 90 c = false) \/ c = emDash).
  { intros c Hc. apply in_map_iff in Hc as (b & <- & Hb).
    destruct (sanitizeFileName_alphabet _ _ Hb) as [[Hw Hu]|[->| ->]];
      [|now right|now right].
    destruct (b =? hyphen)%N; [now right | now left]. }
  rewrite K by (intros c Hc; destruct (Hd c Hc); tauto).
  rewrite <- (map_id d) at 2. apply map_ext_in. intros c Hc.
  destruct (Hd c Hc) as [[Hw _]| ->]; [|reflexivity].
  destruct (c =? hyphen)%N eqn:E; [|reflexivity].
  apply N.eqb_eq in E. subst c. discriminate.
Qed.

Lemma collapseSpaces_length s : length (collapseSpaces s) <= length s.
Proof.
  induction s as [s IH] using length_ind.
  destruct s as [|c t]; [now simp collapseSpaces|].
  rewrite collapseSpaces_cons. destruct (isSpace c); simpl.
  - pose proof (dropWhile_length isSpace t) as L.
    specialize (IH (dropWhile isSpace t)). simpl in IH. lia.
  - specialize (IH t). simpl in IH. lia.
Qed.

Lemma normalizeDashes_length s : length (normalizeDashes s) <= length s.
Proof.
  induction s as [s IH] using length_ind.
  destruct s as [|c t]; [now simp normalizeDashes|].
  rewrite normalizeDashes_cons. destruct (matchDash (c :: t)) as [rest|] eqn:M.
  - pose proof (matchDash_rest_length _ _ M) as L.
    specialize (IH rest L). simpl in *. lia.
  - specialize (IH t). simpl in *. lia.
Qed.

Lemma trimEnd_length s : length (trimEnd s) <= length s.
Proof.
  induction s as [|c t IH]; simpl; [lia|].
  destruct (trimEnd t); [destruct (isSpace c)|]; simpl in *; lia.
Qed.

Lemma trim_length s : length (trim s) <= length s.
Proof.
  unfold trim, trimStart.
  pose proof (trimEnd_length (dropWhile isSpace s)).
  pose proof (dropWhile_length isSpace s). lia.
Qed.

(** X3: neither sanitiser ever returns more code units than it was
    given. *)
Theorem sanitizeFileName_length (title : jsstring) :
  length (sanitizeFileName_minimal title) <= length title
  /\ length (sanitizeFileName title) <= length title.
Proof.
  split.
  - unfold sanitizeFileName_minimal, stripMinimal.
    pose proof (collapseSpaces_length (trim (filter
      (fun c => isWord c || isSpace c || (c =? hyphen)%N) title))).
    pose proof (trim_length (filter
      (fun c => isWord c || isSpace c || (c =? hyphen)%N) title)).
    pose proof (filter_length_le
      (fun c => isWord c || isSpace c || (c =? hyphen)%N) title). lia.
  - unfold sanitizeFileName, toLowerCase, stripExtended. rewrite length_map.
    pose proof (collapseSpaces_length (trim (filter
      (fun c => isWord c || isSpace c || (c =? emDash)%N)
      (normalizeDashes title)))).
    pose proof (trim_length (filter
      (fun c => isWord c || isSpace c || (c =? emDash)%N)
      (normalizeDashes title))).
    pose proof (filter_length_le
      (fun c => isWord c || isSpace c || (c =? emDash)%N)
      (normalizeDashes title)).
    pose proof (normalizeDashes_length title). lia.
Qed.

(** ** Note Placer: the other policies *)

Lemma sanitized_name_plain name :
  (forall c, In c name -> isWord c = true \/ c = hyphen \/ c = emDash) ->
  Forall (fun c => c <> slash /\ c <> 92%N /\ c <> 46%N) name.
Proof.
  intros H. apply Forall_forall. intros c Hc.
  destruct (H c Hc) as [Hw|[->| ->]]; [|repeat split; discriminate..].
  repeat split; intros ->; discriminate.
Qed.

Lemma count_occ_none (s : jsstring) c :
  Forall (fun d => d <> c) s -> count_occ N.eq_dec s c = 0.
Proof.
  intros H. apply count_occ_not_In. intros Hin.
  rewrite Forall_forall in H. now apply (H c Hin).
Qed.

(** X4: the file name either sanitiser makes of a title, with its
    extension, is one path segment: it has no slash and no back slash, and
    its only dot is that of the extension.  With the note location [vault]
    it is the path of the note, whatever the title. *)
Theorem fileName_one_segment (host : Host) (settings : UrlDropperSettings)
  (title name : jsstring) :
  name = sanitizeFileName title \/ name = sanitizeFileName_minimal title ->
  ~ In slash (name ++ str ".md")
  /\ ~ In 92%N (name ++ str ".md")
  /\ count_occ N.eq_dec (name ++ str ".md") 46%N = 1
  /\ split slash (name ++ str ".md") = [name ++ str ".md"]
  /\ (noteLocation settings = LocationVault ->
      getNotePath host settings (name ++ str ".md") = name ++ str ".md").
Proof.
  intros Hname.
  assert (A : forall c, In c name -> isWord c = true \/ c = hyphen \/ c = emDash).
  { intros c Hc. destruct Hname as [-> | ->].
    - apply sanitizeFileName_alphabet in Hc. tauto.
    - apply minimal_alphabet in Hc. tauto. }
  pose proof (sanitized_name_plain _ A) as P. rewrite Forall_forall in P.
  split; [|split; [|split; [|split]]].
  - intros Hin. apply in_app_or in Hin as [Hin|Hin].
    + now apply (proj1 (P _ Hin)).
    + simpl in Hin. intuition discriminate.
  - intros Hin. apply in_app_or in Hin as [Hin|Hin].
    + now apply (proj1 (proj2 (P _ Hin))).
    + simpl in Hin. intuition discriminate.
  - rewrite count_occ_app, count_occ_none; [reflexivity|].
    apply Forall_forall. intros c Hc. now apply P.
  - apply split_plain. apply Forall_app. split.
    + apply Forall_forall. intros c Hc. now apply P.
    + repeat constructor; discriminate.
  - intros Hloc. unfold getNotePath. now rewrite Hloc.
Qed.

Lemma fileName_one_segment_witness :
  ~ In slash (sanitizeFileName (str "a/b: c.d") ++ str ".md")
  /\ ~ In 92%N (sanitizeFileName (str "a/b: c.d") ++ str ".md")
  /\ count_occ N.eq_dec (sanitizeFileName (str "a/b: c.d") ++ str ".md") 46%N = 1
  /\ split slash (sanitizeFileName (str "a/b: c.d") ++ str ".md")
     = [sanitizeFileName (str "a/b: c.d") ++ str ".md"]
  /\ (noteLocation DEFAULT_SETTINGS = LocationVault ->
      getNotePath exampleHost DEFAULT_SETTINGS
        (sanitizeFileName (str "a/b: c.d") ++ str ".md")
      = sanitizeFileName (str "a/b: c.d") ++ str ".md").
Proof.
  apply (fileName_one_segment exampleHost DEFAULT_SETTINGS (str "a/b: c.d")
           (sanitizeFileName (str "a/b: c.d"))).
  left. reflexivity.
Defined.

(** A sanitised file name below a plain folder is a plain path. *)
Lemma folder_path_plain folder name :
  plainPath folder = true ->
  (forall c, In c name -> isWord c = true \/ c = hyphen \/ c = emDash) ->
  plainPath (folder ++ [slash] ++ name ++ str ".md") = true.
Proof.
  intros Hf H. unfold plainPath in *.
  assert (Hc : forallb (fun c => isWord c || (c =? hyphen)%N
                                 || (c =? emDash)%N || (c =? 46)%N) name = true).
  { apply forallb_forall. intros c Hc. apply H in Hc as [Hc|[->| ->]];
      [now rewrite Hc | reflexivity | reflexivity]. }
  assert (Hs : Forall (fun c => c <> slash) (name ++ str ".md")).
  { apply Forall_app. split.
    - apply Forall_forall. intros c Hin ->. apply H in Hin.
      destruct Hin as [Hin|[Hin|Hin]]; discriminate.
    - repeat constructor; discriminate. }
  change (folder ++ [slash] ++ name ++ str ".md")
    with (folder ++ slash :: (name ++ str ".md")).
  rewrite split_app_sep, (split_plain _ _ Hs), forallb_app, Hf.
  cbn [forallb]. rewrite andb_true_r. unfold plainSegment.
  rewrite forallb_app, Hc. destruct name; reflexivity.
Qed.

Section PlainFolders.

Variable host : Host.

Hypothesis normalizePath_plain :
  forall path, plainPath path = true -> normalizePath host path = path.

(** X5: with the note location [default] the note goes to the folder the
    host gives for new files, and to the vault root when the host gives
    none; with [custom] it goes to the custom folder.  For a folder that is
    a plain path and the file name either sanitiser makes, the path is the
    folder, one slash and the file name, with no two separators in a row. *)
Theorem getNotePath_folder (settings : UrlDropperSettings)
  (title name folder : jsstring) :
  name = sanitizeFileName title \/ name = sanitizeFileName_minimal title ->
  plainPath folder = true ->
  (noteLocation settings = LocationDefault /\ getNewFileParent host = Some folder)
  \/ (noteLocation settings = LocationCustom
      /\ customNoteLocation settings = folder) ->
  getNotePath host settings (name ++ str ".md")
  = folder ++ [slash] ++ name ++ str ".md"
  /\ includes (str "//") (getNotePath host settings (name ++ str ".md")) = false.
Proof.
  intros Hname Hf Hloc.
  assert (P : plainPath (folder ++ [slash] ++ name ++ str ".md") = true).
  { apply folder_path_plain; [exact Hf|]. intros c Hc.
    destruct Hname as [-> | ->].
    - apply sanitizeFileName_alphabet in Hc. tauto.
    - apply minimal_alphabet in Hc. tauto. }
  assert (E : getNotePath host settings (name ++ str ".md")
              = folder ++ [slash] ++ name ++ str ".md").
  { unfold getNotePath. destruct Hloc as [[-> ->]|[-> ->]];
      now rewrite normalizePath_plain. }
  rewrite E. split; [reflexivity|]. now apply plainPath_no_double_slash.
Qed.

End PlainFolders.

Lemma getNotePath_folder_witness :
  getNotePath exampleHost
    {| template := template DEFAULT_SETTINGS; frontmatterKey := str "url";
       noteLocation := LocationCustom;
       customNoteLocation := str "Clippings/2024"; openNewNote := false |}
    (sanitizeFileName_minimal (str "My Post Title") ++ str ".md")
  = str "Clippings/2024/My-Post-Title.md".
Proof.
  exact (proj1 (getNotePath_folder exampleHost separatorNormalizer_plain
    {| template := template DEFAULT_SETTINGS; frontmatterKey := str "url";
       noteLocation := LocationCustom;
       customNoteLocation := str "Clippings/2024"; openNewNote := false |}
    (str "My Post Title") (sanitizeFileName_minimal (str "My Post Title"))
    (str "Clippings/2024") (or_intror eq_refl) eq_refl
    (or_intror (conj eq_refl eq_refl)))).
Defined.

(** ** Title Extractor: failure and the shape of the fallback *)

Lemma extractTitle_none_iff (titleText : option jsstring)
  (parsed : option URL) :
  extractTitle titleText parsed = None <->
  (titleText = None \/ titleText = Some []) /\ parsed = None.
Proof.
  destruct titleText as [[|c t]|], parsed as [u|]; simpl;
    split; try discriminate; try tauto;
    intros [[H|H] H']; discriminate.
Qed.

(** X6: a conversion fails for its URL only when the page gives no title.
    After the response the multi-URL variant ends with the error of
    [new URL] exactly when the page has no title, or an empty one, and the
    dropped text does not parse as a URL; with a title that is not empty it
    asks for the note of that title, whether the dropped text parses or
    not. *)
Theorem invalid_url_only_without_title (host : Host)
  (settings : UrlDropperSettings) (url html : jsstring) :
  (MultiUrl.resume host settings (AwaitJson url)
     (JsonSettled (Resolved (Some html)))
   = Some (MultiUrl.failed url invalidUrlError)
   <-> (titleTextOf host html = None \/ titleTextOf host html = Some [])
       /\ newURL host url = None)
  /\ (forall c text,
        titleTextOf host html = Some (c :: text) ->
        MultiUrl.resume host settings (AwaitJson url)
          (JsonSettled (Resolved (Some html)))
        = Some {| next :=
                    AwaitCreate url
                      (getNotePath host settings
                         (sanitizeFileName (c :: text) ++ str ".md"));
                  emitted :=
                    [VaultCreate
                       (getNotePath host settings
                          (sanitizeFileName (c :: text) ++ str ".md"))
                       (renderTemplate (template settings)
                          (frontmatterKey settings) url (c :: text))];
                  updates := [] |}).
Proof.
  split.
  - rewrite <- extractTitle_none_iff. unfold MultiUrl.resume, prepareNote.
    destruct (extractTitle (titleTextOf host html) (newURL host url));
      split; try discriminate; reflexivity.
  - intros c text E. unfold MultiUrl.resume, prepareNote. now rewrite E.
Qed.

(** X7: the title taken from the URL is the host name, or it is the part
    of the path behind its last slash (the whole path when it has none); in
    that case it is not empty and has no slash in it. *)
Theorem fallbackTitle_shape (urlObj : URL) :
  fallbackTitle urlObj = hostname urlObj
  \/ (fallbackTitle urlObj <> []
      /\ Forall (fun c => c <> slash) (fallbackTitle urlObj)
      /\ (pathname urlObj = fallbackTitle urlObj
          \/ exists base,
               pathname urlObj = base ++ slash :: fallbackTitle urlObj)).
Proof.
  unfold fallbackTitle.
  destruct (last_slash (pathname urlObj)) as [H|(base & seg & E & H)].
  - rewrite (split_plain _ _ H). simpl.
    destruct (pathname urlObj) as [|c t] eqn:P; [now left|].
    right. split; [discriminate|]. split; [exact H | now left].
  - rewrite E, (pop_split_last _ _ H).
    destruct seg as [|c t]; [now left|].
    right. split; [discriminate|]. split; [exact H|]. right. now exists base.
Qed.

(** ** Template Renderer: the default template and the dollar patterns *)

(** X8: for a key, a URL and a title with no opening brace and no dollar
    sign in them the default template renders to the front matter with the
    key and the URL and the heading with the title. *)
Theorem renderTemplate_default (key url title : jsstring) :
  plainValue key -> plainValue url -> plainValue title ->
  renderTemplate (template DEFAULT_SETTINGS) key url title
  = str "---" ++ [newline] ++ key ++ str ": " ++ url ++ [newline]
    ++ str "---" ++ [newline; newline] ++ str "# " ++ title
    ++ [newline; newline].
Proof.
  intros Hk Hu Ht. rewrite <- defaultTemplatePieces_flatten.
  rewrite renderTemplate_flatten; try assumption.
  - unfold defaultTemplatePieces. cbn [fill placeholder_eqb].
    unfold flatten. cbn [flat_map pieceText]. rewrite <- !app_assoc.
    reflexivity.
  - exact (proj1 defaultTemplate_tidy).
Qed.

Lemma renderTemplate_default_witness :
  renderTemplate (template DEFAULT_SETTINGS) (str "source")
    (str "https://example.com/blog/my-post") (str "My Post Title")
  = str "---" ++ [newline] ++ str "source: https://example.com/blog/my-post"
    ++ [newline] ++ str "---" ++ [newline; newline] ++ str "# My Post Title"
    ++ [newline; newline].
Proof.
  apply (renderTemplate_default (str "source")
           (str "https://example.com/blog/my-post") (str "My Post Title"));
    apply plainValue_check; reflexivity.
Defined.

Lemma startsWith_eq p s :
  startsWith p s = true -> s = p ++ skipn (length p) s.
Proof.
  revert s. induction p as [|a p IH]; intros s H; [reflexivity|].
  destruct s as [|b s]; [discriminate|]. simpl in H.
  apply andb_true_iff in H as [E H]. apply N.eqb_eq in E. subst b.
  simpl. f_equal. now apply IH.
Qed.

(** Where [indexOf] finds the pattern, the pattern stands. *)
Lemma indexOf_found p s pos :
  indexOf p s = Some pos ->
  s = firstn pos s ++ p ++ skipn (pos + length p) s.
Proof.
  revert pos. induction s as [|c s IH]; intros pos.
  - unfold indexOf. destruct (startsWith p []) eqn:E; [|discriminate].
    intros [= <-]. now apply startsWith_eq in E.
  - unfold indexOf; fold indexOf.
    destruct (startsWith p (c :: s)) eqn:E.
    + intros [= <-]. now apply startsWith_eq in E.
    + destruct (indexOf p s) as [q|]; [|discriminate].
      intros [= <-]. simpl. f_equal. now apply IH.
Qed.

(** X9: the dollar patterns of the replacement text are at work in the
    renderer.  A value [$&] stands for the placeholder itself, so the
    string is left as it is, and in a value [$$] stands for one dollar
    sign; a title [$&] thus leaves the title placeholder in the note. *)
Theorem replace_dollar_patterns (p s : jsstring) :
  replace p [dollar; 38%N] s = s
  /\ replace p [dollar; dollar] s = spec_replaceFirst p [dollar] s
  /\ (forall tpl key url,
        renderTemplate tpl key url [dollar; 38%N]
        = replace (placeholderText Url) url
            (replace (placeholderText FrontmatterKey) key tpl)).
Proof.
  assert (A : forall q t, replace q [dollar; 38%N] t = t).
  { intros q t. unfold replace. destruct (indexOf q t) as [pos|] eqn:E;
      [|reflexivity].
    simpl. rewrite app_nil_r. symmetry. now apply indexOf_found. }
  split; [apply A|]. split.
  - unfold replace, spec_replaceFirst. now destruct (indexOf p s).
  - intros tpl key url. unfold renderTemplate. apply A.
Qed.

(** ** Proxy Fetcher: the request *)

Lemma hexDigit_unreserved n : (n < 16)%N -> isUnreserved (hexDigit n) = true.
Proof.
  intros H. unfold isUnreserved, hexDigit.
  destruct (n <? 10)%N eqn:E.
  - apply N.ltb_lt in E.
    assert (R : inRange 48 57 (48 + n) = true) by bool_lia.
    rewrite R. now rewrite !orb_true_r.
  - apply N.ltb_ge in E.
    assert (R : inRange 65 90 (55 + n) = true) by bool_lia.
    now rewrite R.
Qed.

Lemma percentEncode_chars byte c :
  (byte < 256)%N -> In c (percentEncode byte) ->
  isUnreserved c = true \/ c = 37%N.
Proof.
  intros Hb [<-|[<-|[<-|[]]]]; [now right | left | left];
    apply hexDigit_unreserved.
  - apply N.Div0.div_lt_upper_bound. lia.
  - apply N.mod_lt. discriminate.
Qed.

Lemma utf8_bytes cp b :
  (cp < 1114112)%N -> In b (utf8 cp) -> (b < 256)%N.
Proof.
  intros Hcp. unfold utf8.
  assert (M : forall x, (x mod 64 < 64)%N) by (intros x; now apply N.mod_lt).
  destruct (cp <? 128)%N eqn:E1; [apply N.ltb_lt in E1|apply N.ltb_ge in E1].
  { intros [<-|[]]. lia. }
  destruct (cp <? 2048)%N eqn:E2; [apply N.ltb_lt in E2|apply N.ltb_ge in E2].
  { assert (cp / 64 < 32)%N by (apply N.Div0.div_lt_upper_bound; lia).
    pose proof (M cp). intros [<-|[<-|[]]]; lia. }
  destruct (cp <? 65536)%N eqn:E3; [apply N.ltb_lt in E3|apply N.ltb_ge in E3].
  { assert (cp / 4096 < 16)%N by (apply N.Div0.div_lt_upper_bound; lia).
    pose proof (M cp). pose proof (M (cp / 64)%N).
    intros [<-|[<-|[<-|[]]]]; lia. }
  assert (cp / 262144 < 5)%N by (apply N.Div0.div_lt_upper_bound; lia).
  pose proof (M cp). pose proof (M (cp / 64)%N). pose proof (M (cp / 4096)%N).
  intros [<-|[<-|[<-|[<-|[]]]]]; lia.
Qed.

Lemma escapeCodePoint_chars cp c :
  (cp < 1114112)%N -> In c (escapeCodePoint cp) ->
  isUnreserved c = true \/ c = 37%N.
Proof.
  intros Hcp Hc. unfold escapeCodePoint in Hc.
  apply in_flat_map in Hc as (b & Hb & Hc).
  apply (percentEncode_chars b); [|exact Hc]. now apply (utf8_bytes cp).
Qed.

(** The encoded text has nothing but unreserved characters and percent
    signs. *)
Lemma encodeURIComponent_chars s q :
  Forall (fun c => (c < 65536)%N) s ->
  encodeURIComponent s = Some q ->
  forall c, In c q -> isUnreserved c = true \/ c = 37%N.
Proof.
  revert q. induction s as [s IH] using length_ind. intros q Hs.
  destruct s as [|a t]; [intros [= <-] c []|].
  apply Forall_cons_iff in Hs as [Ha Ht]. simpl encodeURIComponent.
  destruct (isUnreserved a) eqn:Ua.
  { destruct (encodeURIComponent t) as [q'|] eqn:E; [|discriminate].
    intros [= <-] c [<-|Hc]; [now left|].
    apply (IH t) with (q := q'); simpl; auto. }
  destruct (inRange 56320 57343 a); [discriminate|].
  destruct (inRange 55296 56319 a) eqn:Ra.
  - destruct t as [|d t']; [discriminate|].
    destruct (inRange 56320 57343 d) eqn:Rd; [|discriminate].
    destruct (encodeURIComponent t') as [q'|] eqn:E; [|discriminate].
    apply Forall_cons_iff in Ht as [_ Ht'].
    intros [= <-] c Hc. apply in_app_or in Hc as [Hc|Hc].
    + apply (escapeCodePoint_chars _ c) in Hc; [exact Hc|]. bool_lia.
    + apply (IH t') with (q := q'); simpl; auto.
  - destruct (encodeURIComponent t) as [q'|] eqn:E; [|discriminate].
    intros [= <-] c Hc. apply in_app_or in Hc as [Hc|Hc].
    + apply (escapeCodePoint_chars _ c) in Hc; [exact Hc | lia].
    + apply (IH t) with (q := q'); simpl; auto.
Qed.

(** Only a surrogate code unit can make the encoding fail. *)
Lemma encodeURIComponent_total s :
  (forall c, In c s -> inRange 55296 57343 c = false) ->
  encodeURIComponent s <> None.
Proof.
  induction s as [|a t IH]; intros H; [discriminate|].
  assert (Ht : encodeURIComponent t <> None)
    by (apply IH; intros c Hc; apply H; now right).
  pose proof (H a (or_introl eq_refl)) as Ha.
  simpl. destruct (encodeURIComponent t) as [q|]; [|contradiction].
  destruct (isUnreserved a); [discriminate|].
  assert (R1 : inRange 56320 57343 a = false) by bool_lia.
  assert (R2 : inRange 55296 56319 a = false) by bool_lia.
  rewrite R1, R2. discriminate.
Qed.

Ltac div_lia := zify; Z.to_euclidean_division_equations; lia.

Lemma hexDigit_inj n m :
  (n < 16)%N -> (m < 16)%N -> hexDigit n = hexDigit m -> n = m.
Proof.
  unfold hexDigit. intros Hn Hm.
  destruct (n <? 10)%N eqn:A; destruct (m <? 10)%N eqn:B;
    rewrite ?N.ltb_lt, ?N.ltb_ge in *; unfold char in *; lia.
Qed.

Lemma percentEncode_app_inj b b' (r r' : jsstring) :
  (b < 256)%N -> (b' < 256)%N ->
  percentEncode b ++ r = percentEncode b' ++ r' -> b = b' /\ r = r'.
Proof.
  intros Hb Hb'. unfold percentEncode. cbn [app]. intros [= H1 H2 H3].
  apply hexDigit_inj in H1; [|div_lia|div_lia].
  apply hexDigit_inj in H2; [|div_lia|div_lia].
  split; [div_lia | exact H3].
Qed.

(** The bytes of a code point, by its size. *)
Lemma utf8_cases cp :
  (cp < 1114112)%N ->
  (exists b1, utf8 cp = [b1] /\ (b1 < 128)%N /\ cp = b1)
  \/ (exists b1 b2, utf8 cp = [b1; b2] /\ (192 <= b1 < 224)%N
        /\ (128 <= b2 < 192)%N /\ cp = ((b1 - 192) * 64 + (b2 - 128))%N
        /\ (128 <= cp < 2048)%N)
  \/ (exists b1 b2 b3, utf8 cp = [b1; b2; b3] /\ (224 <= b1 < 240)%N
        /\ (128 <= b2 < 192)%N /\ (128 <= b3 < 192)%N
        /\ cp = ((b1 - 224) * 4096 + (b2 - 128) * 64 + (b3 - 128))%N
        /\ (2048 <= cp < 65536)%N)
  \/ (exists b1 b2 b3 b4, utf8 cp = [b1; b2; b3; b4] /\ (240 <= b1 < 248)%N
        /\ (128 <= b2 < 192)%N /\ (128 <= b3 < 192)%N /\ (128 <= b4 < 192)%N
        /\ cp = ((b1 - 240) * 262144 + (b2 - 128) * 4096 + (b3 - 128) * 64
                 + (b4 - 128))%N
        /\ (65536 <= cp)%N).
Proof.
  intros H. unfold utf8.
  destruct (cp <? 128)%N eqn:A1;
    [|destruct (cp <? 2048)%N eqn:A2; [|destruct (cp <? 65536)%N eqn:A3]];
    rewrite ?N.ltb_lt, ?N.ltb_ge in *.
  - left. eexists. split; [reflexivity|]. lia.
  - right; left. do 2 eexists. split; [reflexivity|]. div_lia.
  - right; right; left. do 3 eexists. split; [reflexivity|]. div_lia.
  - right; right; right. do 4 eexists. split; [reflexivity|]. div_lia.
Qed.

Lemma escapeCodePoint_app_inj c c' (r r' : jsstring) :
  (c < 1114112)%N -> (c' < 1114112)%N ->
  escapeCodePoint c ++ r = escapeCodePoint c' ++ r' -> c = c' /\ r = r'.
Proof.
  intros Hc Hc'. unfold escapeCodePoint.
  destruct (utf8_cases c Hc)
    as [(b1 & -> & K)|[(b1 & b2 & -> & K)|[(b1 & b2 & b3 & -> & K)
       |(b1 & b2 & b3 & b4 & -> & K)]]];
    destruct (utf8_cases c' Hc')
      as [(d1 & -> & L)|[(d1 & d2 & -> & L)|[(d1 & d2 & d3 & -> & L)
         |(d1 & d2 & d3 & d4 & -> & L)]]];
    cbn [flat_map]; rewrite <- ?app_assoc; cbn [app]; intros E;
    repeat (apply percentEncode_app_inj in E as [? E]; [| lia | lia]);
    first [ exfalso; lia | split; [lia | exact E] ].
Qed.

Lemma escapeCodePoint_head cp : exists tl, escapeCodePoint cp = 37%N :: tl.
Proof.
  unfold escapeCodePoint, utf8.
  destruct (cp <? 128)%N; [|destruct (cp <? 2048)%N; [|destruct (cp <? 65536)%N]];
    cbn [flat_map percentEncode app]; eexists; reflexivity.
Qed.

(** One step of the encoder: the text is empty, or begins with an
    unreserved code unit, with another code unit that is not a surrogate,
    or with a surrogate pair. *)
Lemma encodeURIComponent_step s q :
  Forall (fun c => (c < 65536)%N) s ->
  encodeURIComponent s = Some q ->
  (s = [] /\ q = [])
  \/ (exists c t q', s = c :: t /\ isUnreserved c = true
        /\ encodeURIComponent t = Some q' /\ q = c :: q')
  \/ (exists c t q', s = c :: t /\ isUnreserved c = false
        /\ inRange 55296 57343 c = false /\ (c < 65536)%N
        /\ encodeURIComponent t = Some q' /\ q = escapeCodePoint c ++ q')
  \/ (exists c d t q', s = c :: d :: t
        /\ inRange 55296 56319 c = true /\ inRange 56320 57343 d = true
        /\ encodeURIComponent t = Some q'
        /\ q = escapeCodePoint ((c - 55296) * 1024 + (d - 56320) + 65536) ++ q').
Proof.
  intros Hs E. destruct s as [|c t]; [injection E as <-; now left|]. right.
  apply Forall_cons_iff in Hs as [Hc Ht]. simpl in E.
  destruct (isUnreserved c) eqn:U.
  { destruct (encodeURIComponent t) as [q'|] eqn:Et; [|discriminate E].
    injection E as <-. left. now exists c, t, q'. }
  right. destruct (inRange 56320 57343 c) eqn:R1; [discriminate E|].
  destruct (inRange 55296 56319 c) eqn:R2.
  - destruct t as [|d t']; [discriminate E|].
    destruct (inRange 56320 57343 d) eqn:R3; [|discriminate E].
    destruct (encodeURIComponent t') as [q'|] eqn:Et; [|discriminate E].
    injection E as <-. right. now exists c, d, t', q'.
  - destruct (encodeURIComponent t) as [q'|] eqn:Et; [|discriminate E].
    injection E as <-. left. exists c, t, q'.
    split; [reflexivity|]. split; [exact U|].
    split; [bool_lia|]. split; [exact Hc|]. now split.
Qed.

(** Two texts with the same encoding are the same text. *)
Lemma encodeURIComponent_inj s :
  forall s' q,
    Forall (fun c => (c < 65536)%N) s -> Forall (fun c => (c < 65536)%N) s' ->
    encodeURIComponent s = Some q -> encodeURIComponent s' = Some q -> s = s'.
Proof.
  induction s as [s IH] using length_ind. intros s' q Hs Hs' E E'.
  destruct (encodeURIComponent_step s q Hs E)
    as [[-> ->]|[(c & t & q1 & -> & U & Et & ->)
       |[(c & t & q1 & -> & U & R & W & Et & ->)
        |(c & d & t & q1 & -> & Rc & Rd & Et & ->)]]];
    destruct (encodeURIComponent_step s' _ Hs' E')
      as [[-> Q]|[(c' & t' & q2 & -> & U' & Et' & Q)
         |[(c' & t' & q2 & -> & U' & R' & W' & Et' & Q)
          |(c' & d' & t' & q2 & -> & Rc' & Rd' & Et' & Q)]]].
  - reflexivity.
  - discriminate.
  - destruct (escapeCodePoint_head c') as [tl K]. rewrite K in Q. discriminate.
  - destruct (escapeCodePoint_head ((c' - 55296) * 1024 + (d' - 56320) + 65536))
      as [tl K]. rewrite K in Q. discriminate.
  - discriminate.
  - injection Q as -> ->. f_equal.
    apply Forall_cons_iff in Hs as [_ Hs], Hs' as [_ Hs'].
    apply (IH t) with (q := q2); simpl; auto.
  - destruct (escapeCodePoint_head c') as [tl K]. rewrite K in Q.
    injection Q as -> _. discriminate.
  - destruct (escapeCodePoint_head ((c' - 55296) * 1024 + (d' - 56320) + 65536))
      as [tl K]. rewrite K in Q. injection Q as -> _. discriminate.
  - destruct (escapeCodePoint_head c) as [tl K]. rewrite K in Q. discriminate.
  - destruct (escapeCodePoint_head c) as [tl K]. rewrite K in Q.
    injection Q as <- _. discriminate.
  - apply escapeCodePoint_app_inj in Q as [-> ->]; [|lia|lia]. f_equal.
    apply Forall_cons_iff in Hs as [_ Hs], Hs' as [_ Hs'].
    apply (IH t) with (q := q2); simpl; auto.
  - apply Forall_cons_iff in Hs' as [Hc' Hs']. apply Forall_cons_iff in Hs' as [Hd' Hs'].
    apply escapeCodePoint_app_inj in Q as [Q _]; [bool_lia|bool_lia|bool_lia].
  - destruct (escapeCodePoint_head ((c - 55296) * 1024 + (d - 56320) + 65536))
      as [tl K]. rewrite K in Q. discriminate.
  - destruct (escapeCodePoint_head ((c - 55296) * 1024 + (d - 56320) + 65536))
      as [tl K]. rewrite K in Q. injection Q as <- _. discriminate.
  - apply Forall_cons_iff in Hs as [Hc Hs]. apply Forall_cons_iff in Hs as [Hd Hs].
    apply escapeCodePoint_app_inj in Q as [Q _]; [bool_lia|bool_lia|bool_lia].
  - apply Forall_cons_iff in Hs as [Hc Hs]. apply Forall_cons_iff in Hs as [Hd Hs].
    apply Forall_cons_iff in Hs' as [Hc' Hs']. apply Forall_cons_iff in Hs' as [Hd' Hs'].
    apply escapeCodePoint_app_inj in Q as [Q ->]; [|bool_lia|bool_lia].
    assert (c = c' /\ d = d') as [-> ->] by bool_lia.
    do 2 f_equal. apply (IH t) with (q := q2); simpl; auto.
Qed.

(** Without surrogates every code unit is encoded by itself. *)
Lemma encodeURIComponent_plain s :
  (forall c, In c s -> inRange 55296 57343 c = false) ->
  encodeURIComponent s
  = Some (flat_map (fun c => if isUnreserved c then [c]
                             else escapeCodePoint c) s).
Proof.
  induction s as [|a t IH]; intros H; [reflexivity|].
  pose proof (H a (or_introl eq_refl)) as Ha.
  simpl. rewrite IH by (intros c Hc; apply H; now right).
  destruct (isUnreserved a); [reflexivity|].
  assert (R1 : inRange 56320 57343 a = false) by bool_lia.
  assert (R2 : inRange 55296 56319 a = false) by bool_lia.
  now rewrite R1, R2.
Qed.

Lemma request_inj (emitted' : list effect) (url url' query : jsstring) :
  Forall (fun c => (c < 65536)%N) url -> Forall (fun c => (c < 65536)%N) url' ->
  encodeURIComponent url = Some query ->
  match encodeURIComponent url' with
  | Some query' => [Fetch (proxyEndpoint ++ query')]
  | None => emitted'
  end = [Fetch (proxyEndpoint ++ query)] ->
  (encodeURIComponent url' = None -> emitted' <> [Fetch (proxyEndpoint ++ query)]) ->
  url' = url.
Proof.
  intros Hw Hw' E R N.
  destruct (encodeURIComponent url') as [query'|] eqn:E'.
  - injection R as R. subst query'.
    exact (encodeURIComponent_inj url' url query Hw' Hw E' E).
  - now destruct (N eq_refl).
Qed.

(** X10: for a (str "https://example.com/?a=1&b=2#top") of 16-bit code units none of which is a surrogate, both
    variants of [processDroppedUrl] start with one request to the proxy,
    and wait for it; the target (str "https://example.com/?a=1&b=2#top") is in the request as a query value
    made of unreserved characters and percent signs only, so no ampersand,
    equals sign, hash, question mark, slash or space of the target can
    change the request.  The query value is the target (str "https://example.com/?a=1&b=2#top") code unit by
    code unit, in its order: an unreserved code unit as it is, any other
    one as the percent-escapes of its UTF-8 bytes; and it is the query
    value of no other text of 16-bit code units, so that the request
    of either variant tells which (str "https://example.com/?a=1&b=2#top") was dropped. *)
Theorem processDroppedUrl_request (url : jsstring) :
  Forall (fun c => (c < 65536)%N) url ->
  (forall c, In c url -> inRange 55296 57343 c = false) ->
  exists query,
    MultiUrl.processDroppedUrl url
    = {| next := AwaitFetch url;
         emitted := [Fetch (proxyEndpoint ++ query)];
         updates := [MultiUrl.increment] |}
    /\ SingleUrl.processDroppedUrl url
       = {| next := AwaitFetch url;
            emitted := [Fetch (proxyEndpoint ++ query)];
            updates := [] |}
    /\ (forall c, In c query -> isUnreserved c = true \/ c = 37%N)
    /\ (forall c, In c [38; 61; 35; 63; 47; 32; 43]%N -> ~ In c query)
    /\ query = flat_map (fun c => if isUnreserved c then [c]
                                  else escapeCodePoint c) url
    /\ (forall url', Forall (fun c => (c < 65536)%N) url' ->
          encodeURIComponent url' = Some query -> url' = url)
    /\ (forall url', Forall (fun c => (c < 65536)%N) url' ->
          emitted (MultiUrl.processDroppedUrl url')
          = [Fetch (proxyEndpoint ++ query)]
          \/ emitted (SingleUrl.processDroppedUrl url')
             = [Fetch (proxyEndpoint ++ query)] ->
          url' = url).
Proof.
  intros Hw Hs. pose proof (encodeURIComponent_plain url Hs) as E.
  unfold MultiUrl.processDroppedUrl, SingleUrl.processDroppedUrl.
  rewrite E.
  exists (flat_map (fun c => if isUnreserved c then [c]
                             else escapeCodePoint c) url).
  split; [reflexivity|]. split; [reflexivity|].
  pose proof (encodeURIComponent_chars url _ Hw E) as A.
  split; [exact A|]. split; [|split; [reflexivity|split]].
  - intros c Hc Hin. apply A in Hin. simpl in Hc.
    destruct Hc as [<-|[<-|[<-|[<-|[<-|[<-|[<-|[]]]]]]]];
      destruct Hin as [Hin|Hin]; discriminate.
  - intros url' Hw' E'.
    exact (encodeURIComponent_inj url' url _ Hw' Hw E' E).
  - intros url' Hw' [R|R].
    + apply (request_inj (MultiUrl.onError url' uriError) url url' _ Hw Hw' E).
      * destruct (encodeURIComponent url'); exact R.
      * intros _. discriminate.
    + apply (request_inj (emitted (SingleUrl.failed uriError)) url url' _
               Hw Hw' E).
      * destruct (encodeURIComponent url'); exact R.
      * intros _. discriminate.
Qed.

Lemma processDroppedUrl_request_witness :
  MultiUrl.processDroppedUrl (str "https://example.com/?a=1&b=2#top")
  = {| next := AwaitFetch (str "https://example.com/?a=1&b=2#top");
       emitted := [Fetch (proxyEndpoint ++ (str "https%3A%2F%2Fexample.com%2F%3Fa%3D1%26b%3D2%23top"))];
       updates := [MultiUrl.increment] |}
  /\ SingleUrl.processDroppedUrl (str "https://example.com/?a=1&b=2#top")
     = {| next := AwaitFetch (str "https://example.com/?a=1&b=2#top");
          emitted := [Fetch (proxyEndpoint ++ (str "https%3A%2F%2Fexample.com%2F%3Fa%3D1%26b%3D2%23top"))];
          updates := [] |}
  /\ (forall c, In c [38; 61; 35; 63; 47; 32; 43]%N -> ~ In c (str "https%3A%2F%2Fexample.com%2F%3Fa%3D1%26b%3D2%23top"))
  /\ (forall url', Forall (fun c => (c < 65536)%N) url' ->
        emitted (MultiUrl.processDroppedUrl url')
        = [Fetch (proxyEndpoint ++ (str "https%3A%2F%2Fexample.com%2F%3Fa%3D1%26b%3D2%23top"))]
        \/ emitted (SingleUrl.processDroppedUrl url')
           = [Fetch (proxyEndpoint ++ (str "https%3A%2F%2Fexample.com%2F%3Fa%3D1%26b%3D2%23top"))] ->
        url' = (str "https://example.com/?a=1&b=2#top")).
Proof.
  assert (Hw : Forall (fun c => (c < 65536)%N) (str "https://example.com/?a=1&b=2#top")).
  { apply Forall_forall. intros c Hc.
    assert (F : forallb (fun c => (c <? 65536)%N) (str "https://example.com/?a=1&b=2#top") = true) by reflexivity.
    rewrite forallb_forall in F. now apply N.ltb_lt, F. }
  assert (Hs : forall c, In c (str "https://example.com/?a=1&b=2#top") -> inRange 55296 57343 c = false).
  { assert (F : forallb (fun c => negb (inRange 55296 57343 c)) (str "https://example.com/?a=1&b=2#top") = true)
      by reflexivity.
    rewrite forallb_forall in F. intros c Hc. now apply negb_true_iff, F. }
  destruct (processDroppedUrl_request (str "https://example.com/?a=1&b=2#top") Hw Hs)
    as (query & M & S & _ & B & Q & _ & I).
  assert (K : query = (str "https%3A%2F%2Fexample.com%2F%3Fa%3D1%26b%3D2%23top")) by (rewrite Q; reflexivity).
  rewrite K in M, S, B, I.
  split; [exact M|]. split; [exact S|]. split; [exact B | exact I].
Defined.

(** ** The drop handler: lines *)

Lemma split_no_sep sep s seg : In seg (split sep s) -> ~ In sep seg.
Proof.
  revert seg. induction s as [|d s IH]; intros seg.
  - simpl. intros [<-|[]] [].
  - simpl split. pose proof (split_nonempty sep s) as Hn.
    destruct (d =? sep)%N eqn:E.
    + intros [<-|H]; [intros [] | now apply IH].
    + destruct (split sep s) as [|seg0 segs]; [contradiction|].
      intros [<-|H].
      * intros [->|Hin]; [now rewrite N.eqb_refl in E|].
        revert Hin. apply IH. now left.
      * apply IH. now right.
Qed.

(** X11: every URL the multi-URL handler dispatches is a line of the
    payload: it has no newline in it, it is not blank, and its code units
    are code units of the payload. *)
Theorem droppedUrls_lines (payload url : jsstring) :
  In url (MultiUrl.droppedUrls payload) ->
  ~ In newline url
  /\ trim url <> []
  /\ (exists c, In c url /\ isSpace c = false)
  /\ (forall c, In c url -> In c payload).
Proof.
  unfold MultiUrl.droppedUrls. intros H. apply filter_In in H as [Hs Ht].
  split; [now apply (split_no_sep newline payload)|].
  assert (T : trim url <> []) by (destruct (trim url); [discriminate|discriminate]).
  split; [exact T|]. split.
  - rewrite trim_nil_iff in T. now apply forallb_false_iff in T.
  - intros c Hc. exact (split_incl _ _ _ _ Hs Hc).
Qed.

Lemma droppedUrls_lines_witness :
  ~ In newline (str " https://example.com/a ")
  /\ trim (str " https://example.com/a ") <> []
  /\ (exists c, In c (str " https://example.com/a ") /\ isSpace c = false)
  /\ (forall c, In c (str " https://example.com/a ") ->
                In c (str " https://example.com/a " ++ [newline; newline]
                      ++ str "https://example.com/b")).
Proof.
  apply (droppedUrls_lines
           (str " https://example.com/a " ++ [newline; newline]
            ++ str "https://example.com/b")
           (str " https://example.com/a ")).
  vm_compute. left. reflexivity.
Defined.

Lemma droppedUrls_app a b :
  MultiUrl.droppedUrls (a ++ newline :: b)
  = MultiUrl.droppedUrls a ++ MultiUrl.droppedUrls b.
Proof.
  unfold MultiUrl.droppedUrls. now rewrite split_app_sep, filter_app.
Qed.

(** X12: the lines of a payload are handled one by one: a drop of two
    payloads joined by a newline is the drop of the first followed by the
    drop of the second.  A line that is not blank is dispatched as it
    stands, with the white space around it. *)
Theorem handleDrop_lines (a b : jsstring) (c : Component) :
  MultiUrl.handleDrop (a ++ newline :: b) c
  = MultiUrl.handleDrop b (MultiUrl.handleDrop a c)
  /\ (forall line,
        Forall (fun d => d <> newline) line ->
        MultiUrl.handleDrop line c
        = if truthy (trim line)
          then spawn (MultiUrl.processDroppedUrl line) c else c).
Proof.
  split.
  - unfold MultiUrl.handleDrop. now rewrite droppedUrls_app, fold_left_app.
  - intros line H. unfold MultiUrl.handleDrop, MultiUrl.droppedUrls.
    rewrite (split_plain _ _ H). simpl. now destruct (truthy (trim line)).
Qed.

Lemma handleDrop_tasks urls c :
  tasks (fold_left (fun c url => spawn (MultiUrl.processDroppedUrl url) c)
           urls c)
  = tasks c ++ map (fun url => next (MultiUrl.processDroppedUrl url)) urls.
Proof.
  revert c. induction urls as [|url urls IH]; intros c; simpl.
  - now rewrite app_nil_r.
  - rewrite IH. simpl. now rewrite <- app_assoc.
Qed.

(** X13: a drop of a payload with no surrogate code unit in it starts one
    conversion for each line that is not blank, in the order of the lines,
    each waiting for its fetch, and raises the counter by their number. *)
Theorem handleDrop_starts (payload : jsstring) (c : Component) :
  (forall d, In d payload -> inRange 55296 57343 d = false) ->
  tasks (MultiUrl.handleDrop payload c)
  = tasks c ++ map AwaitFetch (MultiUrl.droppedUrls payload)
  /\ processingCount (MultiUrl.handleDrop payload c)
     = (processingCount c
        + Z.of_nat (length (MultiUrl.droppedUrls payload)))%Z.
Proof.
  intros H.
  assert (E : Forall (fun url => encodeURIComponent url <> None)
                (MultiUrl.droppedUrls payload)).
  { apply Forall_forall. intros url Hu. apply encodeURIComponent_total.
    intros d Hd. apply H.
    unfold MultiUrl.droppedUrls in Hu. apply filter_In in Hu as [Hu _].
    exact (split_incl _ _ _ _ Hu Hd). }
  split; [|now apply spawn_all_count].
  unfold MultiUrl.handleDrop. rewrite handleDrop_tasks. f_equal.
  apply map_ext_in. intros url Hu. rewrite Forall_forall in E.
  specialize (E url Hu). unfold MultiUrl.processDroppedUrl.
  now destruct (encodeURIComponent url).
Qed.

Lemma handleDrop_starts_witness :
  tasks (MultiUrl.handleDrop
           (str "https://example.com/a" ++ [newline; newline]
            ++ str "https://example.com/b") mounted)
  = [AwaitFetch (str "https://example.com/a");
     AwaitFetch (str "https://example.com/b")]
  /\ processingCount
       (MultiUrl.handleDrop
          (str "https://example.com/a" ++ [newline; newline]
           ++ str "https://example.com/b") mounted)
     = 2%Z.
Proof.
  apply (handleDrop_starts
           (str "https://example.com/a" ++ [newline; newline]
            ++ str "https://example.com/b") mounted).
  assert (F : forallb (fun c => negb (inRange 55296 57343 c))
                (str "https://example.com/a" ++ [newline; newline]
                 ++ str "https://example.com/b") = true)
    by reflexivity.
  rewrite forallb_forall in F. intros d Hd. now apply negb_true_iff, F.
Defined.

(** ** The books of the conversions *)

Lemma count_app p a b : count p (a ++ b) = count p a + count p b.
Proof. unfold count. now rewrite filter_app, length_app. Qed.

Lemma tally_snoc p ts t : tally p (ts ++ [t]) = tally p ts + Nat.b2n (p t).
Proof.
  unfold tally. rewrite filter_app, length_app. simpl.
  now destruct (p t).
Qed.

Lemma setNth_tally p i t t' ts :
  nth_error ts i = Some t ->
  tally p (setNth i t' ts) + Nat.b2n (p t) = tally p ts + Nat.b2n (p t').
Proof.
  unfold tally. revert i. induction ts as [|u ts IH]; intros [|i] H;
    try discriminate.
  - injection H as ->. simpl. destruct (p t), (p t'); simpl; lia.
  - simpl in H. apply IH in H. simpl. destruct (p u); simpl; lia.
Qed.

Lemma setNth_length i t ts : length (setNth i t ts) = length ts.
Proof.
  revert i. induction ts as [|u ts IH]; intros [|i]; simpl; auto.
Qed.

Lemma spawn_accounted r c :
  balanced None r -> accounted c -> accounted (spawn r c).
Proof.
  unfold balanced, accounted, spawn. cbn [tasks log was].
  intros (N & F & C & O & E) (IN & IF & IC & IO & IE).
  rewrite !count_app, !tally_snoc, length_app. simpl length.
  repeat split; lia.
Qed.

Lemma deliver_accounted resume i ev c c' :
  (forall t r, resume t ev = Some r ->
               isSettled t = false /\ balanced (Some t) r) ->
  accounted c -> deliver resume i ev c = Some c' -> accounted c'.
Proof.
  intros Hres (IN & IF & IC & IO & IE). unfold deliver.
  destruct (nth_error (tasks c) i) as [t|] eqn:Ht; [|discriminate].
  destruct (resume t ev) as [r|] eqn:Hr; [|discriminate].
  intros [= <-]. destruct (Hres t r Hr) as (Hs & N & F & C & O & E).
  pose proof (setNth_tally isSettled i t (next r) _ Ht) as T1.
  pose proof (setNth_tally beforeCreate i t (next r) _ Ht) as T2.
  pose proof (setNth_tally awaitsCreate i t (next r) _ Ht) as T3.
  rewrite Hs in T1. unfold accounted. cbn [tasks log was] in *.
  rewrite !count_app, setNth_length. simpl Nat.b2n in T1.
  repeat split; lia.
Qed.

Lemma multi_onError_books url error :
  count isNotice (MultiUrl.onError url error) = 1
  /\ count isFetch (MultiUrl.onError url error) = 0
  /\ count isVaultCreate (MultiUrl.onError url error) = 0
  /\ count isOpenFile (MultiUrl.onError url error) = 0
  /\ count isConsoleError (MultiUrl.onError url error) <= 1.
Proof.
  unfold MultiUrl.onError. destruct (MultiUrl.saysAlreadyExists error);
    cbv [count filter isNotice isFetch isVaultCreate isOpenFile isConsoleError
         length]; repeat split; lia.
Qed.

Lemma multi_failed_balanced before url error :
  balanced before (MultiUrl.failed url error).
Proof.
  unfold balanced, MultiUrl.failed. cbn [emitted next isSettled beforeCreate
    awaitsCreate Nat.b2n].
  destruct (multi_onError_books url error) as (N & F & C & O & E).
  rewrite N, F, C, O. destruct before; repeat split; simpl; lia.
Qed.

Lemma multi_start_balanced url :
  balanced None (MultiUrl.processDroppedUrl url).
Proof.
  unfold MultiUrl.processDroppedUrl. destruct (encodeURIComponent url).
  - unfold balanced. cbv. repeat split; lia.
  - unfold balanced. cbn [emitted next isSettled beforeCreate awaitsCreate
      Nat.b2n was].
    destruct (multi_onError_books url uriError) as (N & F & C & O & E).
    rewrite N, F, C, O. repeat split; lia.
Qed.

Lemma multi_resume_balanced host settings t ev r :
  MultiUrl.resume host settings t ev = Some r ->
  isSettled t = false /\ balanced (Some t) r.
Proof.
  unfold MultiUrl.resume. intros H.
  destruct t; (split; [try reflexivity; discriminate|]);
    destruct ev as [[?|?]|[[?|]|?]|[?|?]|[?|?]]; try discriminate;
    try (injection H as <-; try apply multi_failed_balanced;
         unfold balanced; cbv; repeat split; lia).
  - destruct (prepareNote _ _ _ _ _) as [[? ?]|]; injection H as <-;
      [|apply multi_failed_balanced].
    unfold balanced; cbv; repeat split; lia.
  - destruct (openNewNote settings && _); injection H as <-;
      unfold balanced; cbv; repeat split; lia.
Qed.

Lemma multi_reachable_accounted host settings c :
  MultiUrl.reachable host settings c -> accounted c.
Proof.
  induction 1 as [|c payload _ IH|c i ev c' _ IH Hd].
  - unfold accounted. cbv. repeat split; lia.
  - unfold MultiUrl.handleDrop. generalize (MultiUrl.droppedUrls payload).
    intros urls. revert c IH. induction urls as [|url urls IHu]; intros c IH.
    + exact IH.
    + simpl. apply IHu. apply spawn_accounted; [|exact IH].
      apply multi_start_balanced.
  - apply (deliver_accounted _ _ _ _ _ (fun t r => multi_resume_balanced
             host settings t ev r) IH Hd).
Qed.

(** X14: in every state of the multi-URL component the notices shown are
    as many as the conversions that have ended: a conversion shows one
    notice, when it ends, with a note or with an error, and none before.
    Nothing goes to the console without a notice. *)
Theorem one_notice_per_conversion (host : Host)
  (settings : UrlDropperSettings) (c : Component) :
  MultiUrl.reachable host settings c ->
  count isNotice (log c) = tally isSettled (tasks c)
  /\ count isConsoleError (log c) <= count isNotice (log c).
Proof.
  intros H. apply multi_reachable_accounted in H.
  destruct H as (N & _ & _ & _ & E). now split.
Qed.

Lemma one_notice_per_conversion_witness :
  count isNotice
    (log (MultiUrl.handleDrop
            ([55296%N; newline] ++ str "https://example.com/blog/my-post")
            mounted))
  = 1
  /\ count isConsoleError
       (log (MultiUrl.handleDrop
               ([55296%N; newline] ++ str "https://example.com/blog/my-post")
               mounted))
     <= count isNotice
          (log (MultiUrl.handleDrop
                  ([55296%N; newline] ++ str "https://example.com/blog/my-post")
                  mounted)).
Proof.
  exact (one_notice_per_conversion exampleHost DEFAULT_SETTINGS _
           (MultiUrl.reach_drop exampleHost DEFAULT_SETTINGS mounted
              ([55296%N; newline] ++ str "https://example.com/blog/my-post")
              (MultiUrl.reach_mounted exampleHost DEFAULT_SETTINGS))).
Defined.

(** X15: nothing is tried twice.  In every state of the multi-URL
    component there are at most as many fetches as conversions, at most as
    many notes asked for as fetches, and at most as many notes opened as
    notes asked for; a conversion that still waits for its fetch or for
    the response has not asked for a note. *)
Theorem no_retry (host : Host) (settings : UrlDropperSettings)
  (c : Component) :
  MultiUrl.reachable host settings c ->
  count isOpenFile (log c) <= count isVaultCreate (log c)
  /\ count isVaultCreate (log c) <= count isFetch (log c)
  /\ count isFetch (log c) <= length (tasks c)
  /\ count isVaultCreate (log c) + tally beforeCreate (tasks c)
     <= count isFetch (log c).
Proof.
  intros H. apply multi_reachable_accounted in H.
  destruct H as (_ & F & C & O & _). repeat split; lia.
Qed.

Lemma no_retry_witness :
  count isOpenFile
    (log (MultiUrl.handleDrop (str "https://example.com/blog/my-post") mounted))
  <= count isVaultCreate
       (log (MultiUrl.handleDrop (str "https://example.com/blog/my-post")
               mounted))
  /\ count isVaultCreate
       (log (MultiUrl.handleDrop (str "https://example.com/blog/my-post")
               mounted))
     <= count isFetch
          (log (MultiUrl.handleDrop (str "https://example.com/blog/my-post")
                  mounted))
  /\ count isFetch
       (log (MultiUrl.handleDrop (str "https://example.com/blog/my-post")
               mounted))
     <= length
          (tasks (MultiUrl.handleDrop (str "https://example.com/blog/my-post")
                    mounted))
  /\ count isVaultCreate
       (log (MultiUrl.handleDrop (str "https://example.com/blog/my-post")
               mounted))
     + tally beforeCreate
         (tasks (MultiUrl.handleDrop (str "https://example.com/blog/my-post")
                   mounted))
     <= count isFetch
          (log (MultiUrl.handleDrop (str "https://example.com/blog/my-post")
                  mounted)).
Proof.
  exact (no_retry exampleHost DEFAULT_SETTINGS _
           (MultiUrl.reach_drop exampleHost DEFAULT_SETTINGS mounted
              (str "https://example.com/blog/my-post")
              (MultiUrl.reach_mounted exampleHost DEFAULT_SETTINGS))).
Defined.

Lemma multi_onError_no_open url error :
  count isOpenFile (MultiUrl.onError url error) = 0.
Proof. apply multi_onError_books. Qed.

Lemma setNth_Forall (P : task -> Prop) i t ts :
  Forall P ts -> P t -> Forall P (setNth i t ts).
Proof.
  intros H Ht. revert i. induction H as [|u ts Hu Hts IH]; intros [|i]; simpl;
    try constructor; auto.
Qed.

(** X16: while [openNewNote] is off the multi-URL variant never opens a
    note, whatever is dropped and however the promises settle. *)
Theorem openNewNote_off (host : Host) (settings : UrlDropperSettings)
  (c : Component) :
  openNewNote settings = false ->
  MultiUrl.reachable host settings c ->
  count isOpenFile (log c) = 0
  /\ Forall (fun t => awaitsOpen t = false) (tasks c).
Proof.
  intros Hoff. induction 1 as [|c payload _ IH|c i ev c' _ IH Hd].
  - split; [reflexivity | constructor].
  - unfold MultiUrl.handleDrop. generalize (MultiUrl.droppedUrls payload).
    intros urls. revert c IH. induction urls as [|url urls IHu]; intros c IH.
    + exact IH.
    + simpl. apply IHu. destruct IH as [IO IT]. unfold spawn. cbn [log tasks].
      rewrite count_app, IO. unfold MultiUrl.processDroppedUrl.
      destruct (encodeURIComponent url); cbn [emitted next].
      * split; [reflexivity|]. apply Forall_app. split; [exact IT|].
        now repeat constructor.
      * rewrite multi_onError_no_open. split; [reflexivity|].
        apply Forall_app. split; [exact IT|]. now repeat constructor.
  - destruct IH as [IO IT]. unfold deliver in Hd.
    destruct (nth_error (tasks c) i) as [t|] eqn:Ht; [|discriminate].
    destruct (MultiUrl.resume host settings t ev) as [r|] eqn:Hr;
      [|discriminate].
    injection Hd as <-. cbn [log tasks]. rewrite count_app, IO.
    assert (A : count isOpenFile (emitted r) = 0 /\ awaitsOpen (next r) = false).
    { unfold MultiUrl.resume in Hr. rewrite Hoff in Hr.
      destruct t, ev as [[?|?]|[[?|]|?]|[?|?]|[?|?]]; try discriminate;
        try (injection Hr as <-; cbn [emitted next MultiUrl.failed
               MultiUrl.created]; rewrite ?multi_onError_no_open;
             split; reflexivity).
      destruct (prepareNote _ _ _ _ _) as [[? ?]|]; injection Hr as <-;
        cbn [emitted next MultiUrl.failed]; rewrite ?multi_onError_no_open;
        split; reflexivity. }
    destruct A as [A1 A2]. rewrite A1. split; [reflexivity|].
    now apply setNth_Forall.
Qed.

Lemma openNewNote_off_witness :
  count isOpenFile
    (log (MultiUrl.handleDrop (str "https://example.com/blog/my-post") mounted))
  = 0
  /\ Forall (fun t => awaitsOpen t = false)
       (tasks (MultiUrl.handleDrop (str "https://example.com/blog/my-post")
                 mounted)).
Proof.
  exact (openNewNote_off exampleHost DEFAULT_SETTINGS _ eq_refl
           (MultiUrl.reach_drop exampleHost DEFAULT_SETTINGS mounted
              (str "https://example.com/blog/my-post")
              (MultiUrl.reach_mounted exampleHost DEFAULT_SETTINGS))).
Defined.

(** ** The single-URL variant: its books *)

Lemma single_failed_balanced before error :
  balanced before (SingleUrl.failed error).
Proof. unfold balanced. destruct before; cbv; repeat split; lia. Qed.

Lemma single_start_balanced url :
  balanced None (SingleUrl.processDroppedUrl url).
Proof.
  unfold SingleUrl.processDroppedUrl. destruct (encodeURIComponent url);
    [unfold balanced; cbv; repeat split; lia | apply single_failed_balanced].
Qed.

Lemma single_resume_balanced host settings t ev r :
  SingleUrl.resume host settings t ev = Some r ->
  isSettled t = false /\ balanced (Some t) r.
Proof.
  unfold SingleUrl.resume. intros H.
  destruct t; (split; [try reflexivity; discriminate|]);
    destruct ev as [[?|?]|[[?|]|?]|[?|?]|[?|?]]; try discriminate;
    try (injection H as <-; try apply single_failed_balanced;
         unfold balanced; cbv; repeat split; lia).
  destruct (prepareNote _ _ _ _ _) as [[? ?]|]; injection H as <-;
    [|apply single_failed_balanced].
  unfold balanced; cbv; repeat split; lia.
Qed.

Lemma single_start_quiet url :
  updates (SingleUrl.processDroppedUrl url) = []
  /\ count isOpenFile (emitted (SingleUrl.processDroppedUrl url)) = 0.
Proof.
  unfold SingleUrl.processDroppedUrl. destruct (encodeURIComponent url);
    split; reflexivity.
Qed.

Lemma single_resume_quiet host settings t ev r :
  SingleUrl.resume host settings t ev = Some r ->
  updates r = [] /\ count isOpenFile (emitted r) = 0.
Proof.
  unfold SingleUrl.resume. intros H.
  destruct t; destruct ev as [[?|?]|[[?|]|?]|[?|?]|[?|?]]; try discriminate;
    try (injection H as <-; split; reflexivity).
  destruct (prepareNote _ _ _ _ _) as [[? ?]|]; injection H as <-;
    split; reflexivity.
Qed.

(** X17: the single-URL variant keeps the same books as the other: one
    notice for every conversion that has ended, none before; at most one
    fetch and one note for a conversion.  It never opens a note and never
    touches a counter. *)
Theorem single_variant_books (host : Host) (settings : UrlDropperSettings)
  (c : Component) :
  SingleUrlStates.reachable host settings c ->
  count isNotice (log c) = tally isSettled (tasks c)
  /\ count isVaultCreate (log c) <= count isFetch (log c)
  /\ count isFetch (log c) <= length (tasks c)
  /\ count isOpenFile (log c) = 0
  /\ history c = [0%Z].
Proof.
  intros H.
  assert (A : accounted c /\ count isOpenFile (log c) = 0 /\ history c = [0%Z]).
  { induction H as [|c payload _ IH|c i ev c' _ IH Hd].
    - split; [unfold accounted; cbv; repeat split; lia | now split].
    - unfold SingleUrl.handleDrop. destruct (truthy payload); [|exact IH].
      destruct IH as (IA & IO & IH).
      destruct (single_start_quiet payload) as [U O].
      split; [apply spawn_accounted; [apply single_start_balanced | exact IA]|].
      unfold spawn. cbn [log history]. rewrite U, count_app, IO, O.
      now split.
    - destruct IH as (IA & IO & IH). split.
      + apply (deliver_accounted _ _ _ _ _ (fun t r => single_resume_balanced
                 host settings t ev r) IA Hd).
      + unfold deliver in Hd.
        destruct (nth_error (tasks c) i) as [t|]; [|discriminate].
        destruct (SingleUrl.resume host settings t ev) as [r|] eqn:Hr;
          [|discriminate].
        injection Hd as <-. cbn [log history].
        destruct (single_resume_quiet _ _ _ _ _ Hr) as [U O].
        rewrite U, count_app, IO, O. now split. }
  destruct A as ((N & F & C & _ & _) & O & Hh).
  repeat split; try assumption; try lia.
Qed.

Lemma single_variant_books_witness :
  count isNotice (log (SingleUrl.handleDrop (str " ") mounted))
  = tally isSettled (tasks (SingleUrl.handleDrop (str " ") mounted))
  /\ count isVaultCreate (log (SingleUrl.handleDrop (str " ") mounted))
     <= count isFetch (log (SingleUrl.handleDrop (str " ") mounted))
  /\ count isFetch (log (SingleUrl.handleDrop (str " ") mounted))
     <= length (tasks (SingleUrl.handleDrop (str " ") mounted))
  /\ count isOpenFile (log (SingleUrl.handleDrop (str " ") mounted)) = 0
  /\ history (SingleUrl.handleDrop (str " ") mounted) = [0%Z].
Proof.
  exact (single_variant_books exampleHost DEFAULT_SETTINGS _
           (SingleUrlStates.reach_drop exampleHost DEFAULT_SETTINGS mounted
              (str " ")
              (SingleUrlStates.reach_mounted exampleHost DEFAULT_SETTINGS))).
Defined.

(** ** The status line *)

(** X18: in every state of the multi-URL component the status line is
    rendered exactly while a conversion has not ended, and it then gives
    the number of those conversions, with [note] in the singular for one
    of them. *)
Theorem status_line (host : Host) (settings : UrlDropperSettings)
  (c : Component) (isDragging : bool) :
  MultiUrl.reachable host settings c ->
  status (render isDragging (processingCount c))
  = match inFlight c with
    | 0 => None
    | 1 => Some (str "Processing 1 note...")
    | n => Some (str "Processing " ++ numberToString (Z.of_nat n)
                 ++ str " notes...")
    end.
Proof.
  intros H. apply reachable_counted in H as [_ E]. rewrite E.
  unfold render. cbn [status].
  destruct (inFlight c) as [|[|n]]; [reflexivity | reflexivity |].
  assert (G0 : (Z.of_nat (S (S n)) >? 0)%Z = true) by (apply Z.gtb_lt; lia).
  assert (G1 : (Z.of_nat (S (S n)) >? 1)%Z = true) by (apply Z.gtb_lt; lia).
  rewrite G0, G1. reflexivity.
Qed.

Lemma status_line_witness :
  status (render false
            (processingCount
               (MultiUrl.handleDrop
                  (str "https://example.com/a" ++ [newline]
                   ++ str "https://example.com/b") mounted)))
  = Some (str "Processing 2 notes...").
Proof.
  exact (status_line exampleHost DEFAULT_SETTINGS _ false
           (MultiUrl.reach_drop exampleHost DEFAULT_SETTINGS mounted
              (str "https://example.com/a" ++ [newline]
               ++ str "https://example.com/b")
              (MultiUrl.reach_mounted exampleHost DEFAULT_SETTINGS))).
Defined.

(** ** [fetchPageTitle] *)

Lemma canonicalize_lt c : canonicalize c = 60%N -> c = 60%N.
Proof.
  unfold canonicalize. destruct (inRange 97 122 c) eqn:E; [|auto].
  intros H. bool_lia.
Qed.

Lemma startsWithIgnoreCase_app p m rest :
  sameIgnoreCase p m = true -> startsWithIgnoreCase p (m ++ rest) = true.
Proof.
  unfold sameIgnoreCase. revert m. induction p as [|a p IH]; intros m H;
    [reflexivity|].
  destruct m as [|b m]; [discriminate|]. simpl in *.
  apply andb_true_iff in H as [L H]. apply andb_true_iff in H as [E H].
  rewrite E. simpl. apply IH. now rewrite L, H.
Qed.

Lemma startsWithIgnoreCase_firstn p s :
  startsWithIgnoreCase p s = true ->
  sameIgnoreCase p (firstn (length p) s) = true.
Proof.
  unfold sameIgnoreCase. revert s. induction p as [|a p IH]; intros s H;
    [reflexivity|].
  destruct s as [|b s]; [discriminate|]. simpl in *.
  apply andb_true_iff in H as [E H]. specialize (IH s H).
  apply andb_true_iff in IH as [L IH]. now rewrite E, L, IH.
Qed.

Lemma lazyTitle_sound s title :
  lazyTitle s = Some title ->
  Forall (fun c : char => isLineTerminator c = false) title
  /\ exists close after,
       s = title ++ close ++ after
       /\ sameIgnoreCase (str "</title>") close = true.
Proof.
  revert title. induction s as [|c t IH]; intros title.
  - simpl. discriminate.
  - unfold lazyTitle; fold lazyTitle.
    destruct (startsWithIgnoreCase (str "</title>") (c :: t)) eqn:E.
    + intros [= <-]. split; [constructor|].
      exists (firstn 8 (c :: t)), (skipn 8 (c :: t)). split.
      * exact (eq_sym (firstn_skipn 8 (c :: t))).
      * exact (startsWithIgnoreCase_firstn _ _ E).
    + destruct (isLineTerminator c) eqn:L; [discriminate|].
      destruct (lazyTitle t) as [title'|]; [|discriminate].
      intros [= <-]. destruct (IH title' eq_refl) as (F & close & after & -> & S).
      split; [now constructor|]. now exists close, after.
Qed.

Lemma matchTitle_sound s title :
  matchTitle s = Some title ->
  Forall (fun c : char => isLineTerminator c = false) title
  /\ exists before open close after,
       s = before ++ open ++ title ++ close ++ after
       /\ sameIgnoreCase (str "<title>") open = true
       /\ sameIgnoreCase (str "</title>") close = true.
Proof.
  assert (Here : forall u,
            (if startsWithIgnoreCase (str "<title>") u
             then lazyTitle (skipn 7 u) else None) = Some title ->
            Forall (fun c : char => isLineTerminator c = false) title
            /\ exists open close after,
                 u = open ++ title ++ close ++ after
                 /\ sameIgnoreCase (str "<title>") open = true
                 /\ sameIgnoreCase (str "</title>") close = true).
  { intros u H.
    destruct (startsWithIgnoreCase (str "<title>") u) eqn:E; [|discriminate].
    apply lazyTitle_sound in H as (F & close & after & Hs & S).
    split; [exact F|].
    exists (firstn 7 u), close, after. split.
    - rewrite <- Hs. symmetry. apply firstn_skipn.
    - split; [exact (startsWithIgnoreCase_firstn _ _ E) | exact S]. }
  induction s as [|c t IH].
  - unfold matchTitle. intros H.
    destruct (if startsWithIgnoreCase (str "<title>") []
              then lazyTitle (skipn 7 []) else None) eqn:E; [|discriminate].
    injection H as ->. destruct (Here [] E) as (F & open & close & after & R).
    split; [exact F|]. now exists [], open, close, after.
  - unfold matchTitle; fold matchTitle. intros H.
    destruct (if startsWithIgnoreCase (str "<title>") (c :: t)
              then lazyTitle (skipn 7 (c :: t)) else None) eqn:E.
    + injection H as ->.
      destruct (Here (c :: t) E) as (F & open & close & after & R).
      split; [exact F|]. now exists [], open, close, after.
    + destruct (IH H) as (F & before & open & close & after & -> & R).
      split; [exact F|]. now exists (c :: before), open, close, after.
Qed.

(** X19: [fetchPageTitle] never fails: an error of the fetch goes to the
    console and gives the empty string.  A title it returns has no line
    terminator in it and stands in the page between an opening and a
    closing title tag, written in any case. *)
Theorem fetchPageTitle_sound (response : outcome jsstring) :
  Forall (fun c : char => isLineTerminator c = false) (fst (fetchPageTitle response))
  /\ (fst (fetchPageTitle response) <> [] ->
      exists html before open close after,
        response = Resolved html
        /\ html = before ++ open ++ fst (fetchPageTitle response)
                  ++ close ++ after
        /\ sameIgnoreCase (str "<title>") open = true
        /\ sameIgnoreCase (str "</title>") close = true)
  /\ (forall error,
        response = Rejected error ->
        fetchPageTitle response
        = ([], [ConsoleError (str "Error fetching page title:") error])).
Proof.
  destruct response as [html|error]; simpl.
  - destruct (matchTitle html) as [title|] eqn:M.
    + apply matchTitle_sound in M
        as (F & before & open & close & after & E & So & Sc).
      destruct title as [|c t]; simpl.
      * split; [constructor|]. split; [congruence | discriminate].
      * split; [exact F|]. split; [|discriminate].
        intros _. now exists html, before, open, close, after.
    + split; [constructor|]. split; [congruence | discriminate].
  - split; [constructor|]. split; [congruence|]. now intros e [= <-].
Qed.

Lemma lazyTitle_complete (title close after : jsstring) :
  Forall (fun c : char => c <> 60%N /\ isLineTerminator c = false) title ->
  sameIgnoreCase (str "</title>") close = true ->
  lazyTitle (title ++ close ++ after) = Some title.
Proof.
  intros H S. induction H as [|c t [Hc Hl] _ IH].
  - simpl app. pose proof (startsWithIgnoreCase_app _ _ after S) as E.
    destruct (close ++ after); unfold lazyTitle; fold lazyTitle;
      now rewrite E.
  - change ((c :: t) ++ close ++ after) with (c :: (t ++ close ++ after)).
    unfold lazyTitle; fold lazyTitle.
    assert (E : startsWithIgnoreCase (str "</title>")
                  (c :: t ++ close ++ after) = false).
    { change (str "</title>") with (60%N :: str "/title>").
      cbn [startsWithIgnoreCase].
      destruct (canonicalize 60 =? canonicalize c)%N eqn:Q; [|reflexivity].
      apply N.eqb_eq in Q. symmetry in Q. now apply canonicalize_lt in Q. }
    now rewrite E, Hl, IH.
Qed.

Lemma matchTitle_unfold s :
  matchTitle s
  = match (if startsWithIgnoreCase (str "<title>") s
           then lazyTitle (skipn 7 s) else None) with
    | Some title => Some title
    | None =>
        match s with
        | [] => None
        | _ :: t => matchTitle t
        end
    end.
Proof. destruct s; reflexivity. Qed.

Lemma matchTitle_skip (before rest : jsstring) :
  Forall (fun c : char => c <> 60%N) before ->
  matchTitle (before ++ rest) = matchTitle rest.
Proof.
  induction 1 as [|c t Hc _ IH]; [reflexivity|].
  change ((c :: t) ++ rest) with (c :: (t ++ rest)).
  unfold matchTitle at 1; fold matchTitle.
  assert (E : startsWithIgnoreCase (str "<title>") (c :: t ++ rest) = false).
  { change (str "<title>") with (60%N :: str "title>").
    cbn [startsWithIgnoreCase].
    destruct (canonicalize 60 =? canonicalize c)%N eqn:Q; [|reflexivity].
    apply N.eqb_eq in Q. symmetry in Q. now apply canonicalize_lt in Q. }
  now rewrite E.
Qed.

(** X20: from a page that has no [<] before its title element, and a
    title with no [<] and no line terminator in it, [fetchPageTitle]
    returns the title, whatever the case of the tags and whatever follows;
    nothing goes to the console. *)
Theorem fetchPageTitle_complete (before open title close after : jsstring) :
  Forall (fun c : char => c <> 60%N) before ->
  sameIgnoreCase (str "<title>") open = true ->
  Forall (fun c : char => c <> 60%N /\ isLineTerminator c = false) title ->
  sameIgnoreCase (str "</title>") close = true ->
  fetchPageTitle (Resolved (before ++ open ++ title ++ close ++ after))
  = (title, []).
Proof.
  intros Hb So Ht Sc. unfold fetchPageTitle.
  rewrite matchTitle_skip by exact Hb.
  assert (M : matchTitle (open ++ title ++ close ++ after) = Some title).
  { assert (L : length open = 7).
    { unfold sameIgnoreCase in So. apply andb_true_iff in So as [L _].
      apply Nat.eqb_eq in L. now rewrite <- L. }
    pose proof (startsWithIgnoreCase_app _ _ (title ++ close ++ after) So) as E.
    pose proof (lazyTitle_complete title close after Ht Sc) as Z.
    assert (K : skipn 7 (open ++ title ++ close ++ after)
                = title ++ close ++ after).
    { rewrite <- L. rewrite skipn_app, skipn_all, Nat.sub_diag. reflexivity. }
    rewrite matchTitle_unfold, E, K, Z. reflexivity. }
  rewrite M. now destruct title.
Qed.

Lemma fetchPageTitle_complete_witness :
  fetchPageTitle
    (Resolved (str "  " ++ str "<TITLE>" ++ str "My Post Title"
               ++ str "</Title>" ++ str "<body></body>"))
  = (str "My Post Title", []).
Proof.
  apply (fetchPageTitle_complete (str "  ") (str "<TITLE>")
           (str "My Post Title") (str "</Title>") (str "<body></body>")).
  - repeat constructor; discriminate.
  - reflexivity.
  - repeat (constructor; [split; [discriminate | reflexivity]|]). constructor.
  - reflexivity.
Defined.

(** ** Settings: saving and loading *)

Lemma get_assign target source key :
  get (assign target source) key
  = match get source key with
    | Some v => Some v
    | None => get target key
    end.
Proof.
  unfold assign. induction source as [|[k v] rest IH]; [reflexivity|].
  simpl. destruct (sameString k key); [reflexivity | exact IH].
Qed.

(** X21: loading merges what was saved over the defaults, key by key: a
    saved property wins, a key that was not saved has its default.  So
    the settings that were saved are the settings that are loaded; what
    the single-URL variant saved loads in the other with [openNewNote]
    off; and with nothing saved the settings are the defaults. *)
Theorem loadSettings_merge (defaults saved : object) (key : jsstring)
  (settings : UrlDropperSettings) :
  get (loadSettings defaults (Some saved)) key
  = match get saved key with
    | Some v => Some v
    | None => get defaults key
    end
  /\ get (loadSettings defaults None) key = get defaults key
  /\ typed (loadSettings (toObject DEFAULT_SETTINGS) (Some (toObject settings)))
     = Some settings
  /\ typed (loadSettings (toObject DEFAULT_SETTINGS)
              (Some (toObject_single settings)))
     = Some {| template := template settings;
               frontmatterKey := frontmatterKey settings;
               noteLocation := noteLocation settings;
               customNoteLocation := customNoteLocation settings;
               openNewNote := false |}
  /\ typed (loadSettings (toObject DEFAULT_SETTINGS) None)
     = Some DEFAULT_SETTINGS.
Proof.
  split; [|split; [|split; [|split]]].
  - unfold loadSettings. rewrite !get_assign. simpl.
    destruct (get saved key); [reflexivity|]. now destruct (get defaults key).
  - unfold loadSettings. rewrite get_assign. simpl.
    now destruct (get defaults key).
  - destruct settings as [t k l c b]. destruct l; reflexivity.
  - destruct settings as [t k l c b]. destruct l; reflexivity.
  - reflexivity.
Qed.

(** ** Filename Sanitizer: words and separators *)

Lemma normalizeDashes_no_hyphen_id s :
  (forall c, In c s -> c <> hyphen) -> normalizeDashes s = s.
Proof.
  induction s as [|c t IH]; intros H; [now simp normalizeDashes|].
  assert (M : matchDash (c :: t) = None).
  { unfold matchDash.
    destruct (dropWhile isSpace (c :: t)) as [|h r] eqn:D; [reflexivity|].
    assert (Hh : In h (c :: t)).
    { apply (dropWhile_incl isSpace). rewrite D. now left. }
    apply H in Hh. apply N.eqb_neq in Hh. now rewrite Hh. }
  rewrite (normalizeDashes_copy _ _ M), IH; [reflexivity|].
  intros d Hd. apply H. now right.
Qed.

Lemma blank_no_hyphen w c : blank w -> In c w -> c <> hyphen.
Proof.
  unfold blank. intros W Hc ->. rewrite forallb_forall in W.
  apply W in Hc. discriminate.
Qed.

Lemma goodWord_cons w :
  goodWord w -> exists c k, w = c :: k /\ isSpace c = false.
Proof.
  intros [H (d & Hd & _)]. destruct w as [|c k]; [contradiction|].
  exists c, k. split; [reflexivity|]. now apply (H c (or_introl eq_refl)).
Qed.

Lemma solid_cons k :
  solid k -> exists c k', k = c :: k' /\ isSpace c = false.
Proof.
  intros [Hn H]. destruct k as [|c k']; [contradiction|].
  exists c, k'. split; [reflexivity|]. now apply (H c (or_introl eq_refl)).
Qed.

Lemma goodWord_solid w : goodWord w -> solid w.
Proof.
  intros G. destruct (goodWord_cons w G) as (c & k & -> & _).
  split; [discriminate|]. intros d Hd. now apply (proj1 G).
Qed.

Lemma trimEnd_app_solid x k : solid k -> trimEnd (x ++ k) = x ++ k.
Proof.
  intros S. destruct (solid_cons k S) as (c & k' & -> & Hc).
  rewrite trimEnd_app_stop by exact Hc. rewrite trimEnd_no_space; [reflexivity|].
  intros d Hd. apply (proj2 S). now right.
Qed.

Lemma trimStart_blank_solid w k rest :
  blank w -> solid k -> dropWhile isSpace (w ++ k ++ rest) = k ++ rest.
Proof.
  intros W S. destruct (solid_cons k S) as (c & k' & -> & Hc).
  change (w ++ (c :: k') ++ rest) with (w ++ c :: (k' ++ rest)).
  rewrite dropWhile_app_stop by exact Hc. now rewrite (dropWhile_all _ _ W).
Qed.

(** The first step on a phrase: the hyphens with their white space become
    em-dashes, everything else stays. *)
Lemma normalizeDashes_phrase rest p trail :
  (forall c, In c p -> c <> hyphen) -> trimEnd p = p ->
  Forall (fun q => goodSeparator (fst q) /\ goodWord (snd q)) rest ->
  blank trail ->
  normalizeDashes
    (p ++ flat_map (fun q => separatorText (fst q) ++ snd q) rest ++ trail)
  = p ++ flat_map (fun q => separatorNormal (fst q) ++ snd q) rest ++ trail.
Proof.
  intros Hp Tp Hr Ht. revert p Hp Tp.
  induction Hr as [|[s w] rest [Gs Gw] _ IH]; intros p Hp Tp.
  - simpl. apply normalizeDashes_no_hyphen_id. intros c Hc.
    apply in_app_or in Hc as [Hc|Hc]; [now apply Hp|].
    now apply (blank_no_hyphen trail).
  - cbn [flat_map fst snd] in *. pose proof (goodWord_solid w Gw) as Sw.
    destruct s as [sp|b a]; cbn [separatorText separatorNormal goodSeparator] in *.
    + destruct Gs as [_ Bs]. rewrite <- !app_assoc.
      rewrite !(app_assoc p sp), !(app_assoc (p ++ sp) w).
      apply IH.
      * intros c Hc. apply in_app_or in Hc as [Hc|Hc];
          [apply in_app_or in Hc as [Hc|Hc]|].
        -- now apply Hp.
        -- now apply (blank_no_hyphen sp).
        -- now apply (proj1 Gw).
      * now apply trimEnd_app_solid.
    + destruct Gs as [Bb Ba]. rewrite <- !app_assoc.
      change (p ++ b ++ (hyphen :: a) ++ w ++
              flat_map (fun q => separatorText (fst q) ++ snd q) rest ++ trail)
        with (p ++ b ++ hyphen :: (a ++ w ++
              flat_map (fun q => separatorText (fst q) ++ snd q) rest ++ trail)).
      rewrite (app_assoc p b), normalizeDashes_hyphen.
      rewrite (trimEnd_app_space p b Bb), Tp.
      rewrite (normalizeDashes_no_hyphen_id p Hp).
      unfold trimStart. rewrite (trimStart_blank_solid a w _ Ba Sw).
      rewrite IH.
      * reflexivity.
      * intros c Hc. now apply (proj1 Gw).
      * now apply (trimEnd_app_solid []).
Qed.

Lemma stripExtended_blank w : blank w -> stripExtended w = w.
Proof.
  unfold blank, stripExtended. intros W. apply forallb_filter_id.
  apply forallb_forall. intros c Hc. rewrite forallb_forall in W.
  rewrite (W c Hc). now rewrite orb_true_r.
Qed.

Lemma stripExtended_app x y :
  stripExtended (x ++ y) = stripExtended x ++ stripExtended y.
Proof. apply filter_app. Qed.

Lemma separatorNormal_kept s :
  goodSeparator s -> stripExtended (separatorNormal s) = separatorNormal s.
Proof.
  destruct s as [w|b a]; simpl; [|reflexivity].
  intros [_ W]. now apply stripExtended_blank.
Qed.

Lemma stripExtended_rest rest :
  Forall (fun q => goodSeparator (fst q) /\ goodWord (snd q)) rest ->
  stripExtended (flat_map (fun q => separatorNormal (fst q) ++ snd q) rest)
  = flat_map (fun q => separatorNormal (fst q) ++ stripExtended (snd q)) rest.
Proof.
  induction 1 as [|[s w] rest [Gs _] _ IH]; [reflexivity|].
  cbn [flat_map fst snd] in *.
  now rewrite !stripExtended_app, IH, separatorNormal_kept.
Qed.

(** What is left of a word is not empty and has no white space. *)
Lemma stripExtended_word w : goodWord w -> solid (stripExtended w).
Proof.
  intros [H (c & Hc & K)]. split.
  - assert (In c (stripExtended w)) as Hin.
    { apply filter_In. split; [exact Hc|].
      destruct K as [K| ->]; [now rewrite K | reflexivity]. }
    intros E. now rewrite E in Hin.
  - intros d Hd. apply filter_In in Hd as [Hd _]. now apply H.
Qed.

Lemma trimEnd_rest rest p :
  trimEnd p = p ->
  Forall (fun q => goodSeparator (fst q) /\ goodWord (snd q)) rest ->
  trimEnd (p ++ flat_map (fun q => separatorNormal (fst q)
                                   ++ stripExtended (snd q)) rest)
  = p ++ flat_map (fun q => separatorNormal (fst q)
                            ++ stripExtended (snd q)) rest.
Proof.
  intros Tp Hr. revert p Tp.
  induction Hr as [|[s w] rest [_ Gw] _ IH]; intros p Tp.
  - simpl. now rewrite app_nil_r.
  - cbn [flat_map fst snd]. rewrite <- app_assoc.
    rewrite (app_assoc p), (app_assoc (p ++ separatorNormal s)).
    apply IH. apply trimEnd_app_solid. now apply stripExtended_word.
Qed.

Lemma collapseSpaces_app_solid p rest :
  (forall c, In c p -> isSpace c = false) ->
  collapseSpaces (p ++ rest) = p ++ collapseSpaces rest.
Proof.
  induction p as [|c p IH]; intros H; [reflexivity|].
  change ((c :: p) ++ rest) with (c :: (p ++ rest)).
  rewrite collapseSpaces_cons, (H c (or_introl eq_refl)), IH; [reflexivity|].
  intros d Hd. apply H. now right.
Qed.

(** The fourth step on what is left of a phrase: each run of white space
    becomes one hyphen. *)
Lemma collapseSpaces_rest rest :
  Forall (fun q => goodSeparator (fst q) /\ goodWord (snd q)) rest ->
  collapseSpaces (flat_map (fun q => separatorNormal (fst q)
                                     ++ stripExtended (snd q)) rest)
  = flat_map (fun q => spec_separatorMark (fst q) ++ stripExtended (snd q)) rest.
Proof.
  induction 1 as [|[s w] rest [Gs Gw] _ IH]; [now simp collapseSpaces|].
  cbn [flat_map fst snd] in *. pose proof (stripExtended_word w Gw) as Sw.
  destruct s as [sp|b a]; cbn [separatorNormal spec_separatorMark goodSeparator] in *.
  - destruct Gs as [Hn Bs]. destruct sp as [|d sp']; [contradiction|].
    unfold blank in Bs. simpl in Bs. apply andb_true_iff in Bs as [Hd Bs'].
    rewrite <- !app_assoc.
    change ((d :: sp') ++ stripExtended w ++
            flat_map (fun q => separatorNormal (fst q)
                               ++ stripExtended (snd q)) rest)
      with (d :: (sp' ++ stripExtended w ++
            flat_map (fun q => separatorNormal (fst q)
                               ++ stripExtended (snd q)) rest)).
    rewrite collapseSpaces_cons, Hd.
    rewrite (trimStart_blank_solid sp' (stripExtended w) _ Bs' Sw).
    rewrite collapseSpaces_app_solid by exact (proj2 Sw).
    now rewrite IH.
  - rewrite <- !app_assoc. simpl app.
    rewrite collapseSpaces_cons. change (isSpace emDash) with false. cbv iota.
    rewrite collapseSpaces_app_solid by exact (proj2 Sw).
    now rewrite IH.
Qed.

Lemma stripExtended_lower_word w :
  goodWord w -> toLowerCase (stripExtended w) = spec_wordSlug w.
Proof.
  intros [H _]. unfold toLowerCase, stripExtended, spec_wordSlug.
  f_equal. apply filter_ext_in. intros c Hc.
  destruct (H c Hc) as [Hs _]. rewrite Hs, orb_false_r. reflexivity.
Qed.

Lemma toLowerCase_rest rest :
  Forall (fun q => goodSeparator (fst q) /\ goodWord (snd q)) rest ->
  toLowerCase (flat_map (fun q => spec_separatorMark (fst q)
                                  ++ stripExtended (snd q)) rest)
  = flat_map (fun q => spec_separatorMark (fst q) ++ spec_wordSlug (snd q)) rest.
Proof.
  induction 1 as [|[s w] rest [_ Gw] _ IH]; [reflexivity|].
  cbn [flat_map fst snd] in *. unfold toLowerCase in *.
  rewrite !map_app, IH. fold (toLowerCase (stripExtended w)).
  rewrite (stripExtended_lower_word w Gw). now destruct s.
Qed.

(** The extended sanitiser on a phrase. *)
Lemma sanitizeFileName_phrase lead first rest trail :
  blank lead -> blank trail -> goodPhrase first rest ->
  sanitizeFileName (lead ++ phrase first rest ++ trail) = spec_phraseSlug first rest.
Proof.
  intros Bl Bt [Gf Gr]. unfold sanitizeFileName, phrase, spec_phraseSlug, spell.
  pose proof (goodWord_solid first Gf) as Sf.
  pose proof (stripExtended_word first Gf) as Kf.
  rewrite <- app_assoc, (app_assoc lead first).
  rewrite normalizeDashes_phrase; try assumption.
  - rewrite !stripExtended_app, (stripExtended_blank lead Bl),
      (stripExtended_blank trail Bt), (stripExtended_rest rest Gr).
    unfold trim, trimStart. rewrite <- !app_assoc.
    rewrite (trimStart_blank_solid lead (stripExtended first) _ Bl Kf).
    rewrite app_assoc, (trimEnd_app_space _ trail Bt).
    rewrite trimEnd_rest;
      [|now apply (trimEnd_app_solid []) | exact Gr].
    rewrite collapseSpaces_app_solid by exact (proj2 Kf).
    rewrite (collapseSpaces_rest rest Gr).
    unfold toLowerCase at 1. rewrite map_app.
    fold (toLowerCase (stripExtended first)).
    fold (toLowerCase (flat_map (fun q => spec_separatorMark (fst q)
                                          ++ stripExtended (snd q)) rest)).
    now rewrite (stripExtended_lower_word first Gf), (toLowerCase_rest rest Gr).
  - intros c Hc. apply in_app_or in Hc as [Hc|Hc].
    + now apply (blank_no_hyphen lead).
    + now apply (proj1 Gf).
  - now apply trimEnd_app_solid.
Qed.

Lemma collapseSpaces_run a w k :
  (forall a' c, a = a' ++ [c] -> isSpace c = false) ->
  w <> [] -> blank w -> (forall c k', k = c :: k' -> isSpace c = false) ->
  collapseSpaces (a ++ w ++ k) = collapseSpaces a ++ hyphen :: collapseSpaces k.
Proof.
  intros Ha Hn Bw Hk.
  assert (R : collapseSpaces (w ++ k) = hyphen :: collapseSpaces k).
  { destruct w as [|d w']; [contradiction|].
    unfold blank in Bw. simpl in Bw. apply andb_true_iff in Bw as [Hd Bw'].
    change ((d :: w') ++ k) with (d :: (w' ++ k)).
    rewrite collapseSpaces_cons, Hd. f_equal. f_equal.
    destruct k as [|c k'].
    - rewrite app_nil_r. now apply dropWhile_all.
    - rewrite dropWhile_app_stop by exact (Hk c k' eq_refl).
      now rewrite (dropWhile_all _ _ Bw'). }
  destruct a as [|x a0] using rev_ind; [exact R|]. clear IHa0.
  pose proof (Ha a0 x eq_refl) as Hx.
  rewrite <- app_assoc. change ([x] ++ w ++ k) with (x :: (w ++ k)).
  rewrite !collapseSpaces_app_stop by exact Hx. rewrite R.
  simp collapseSpaces. now rewrite <- app_assoc.
Qed.

Lemma goodWord_check w :
  forallb (fun c => negb (isSpace c) && negb (c =? hyphen)%N) w = true ->
  existsb (fun c => isWord c || (c =? emDash)%N) w = true ->
  goodWord w.
Proof.
  intros A E. split.
  - intros c Hc. rewrite forallb_forall in A. apply A in Hc.
    apply andb_true_iff in Hc as [H1 H2].
    apply negb_true_iff in H1, H2. split; [exact H1|]. now apply N.eqb_neq.
  - apply existsb_exists in E as (c & Hc & K). exists c. split; [exact Hc|].
    apply orb_true_iff in K as [K|K]; [now left|]. right. now apply N.eqb_eq.
Qed.

(** C7: the extended sanitiser on a title made of words and separators,
    with white space before and after.  A word has no white space and no
    hyphen in it and keeps at least one character (a word character or an
    em-dash); a separator is a run of white space, or a hyphen with any
    white space around it (so both [" - "] and ["-"]).  The file name is
    the words, each without its other characters and in lower case, with
    ONE hyphen for each run of white space and an em-dash for each hyphen
    with its white space, and nothing for the white space at the two ends.
    For every title with [" - "] in it, the file name is what the
    sanitiser makes of the text before, an em-dash, and what it makes of
    the text after, and no hyphen of the title is left by the first step.
    The fourth step writes one hyphen for a run of white space between a
    text that does not end in white space and one that does not begin
    with it.  The file name of every title consists of lower-case word
    characters, hyphens and em-dashes. *)
Theorem sanitizeFileName_em_dash (lead first trail : jsstring)
  (rest : list (separator * jsstring)) :
  blank lead -> blank trail -> goodPhrase first rest ->
  sanitizeFileName (lead ++ phrase first rest ++ trail) = spec_phraseSlug first rest
  /\ (forall before after : jsstring,
        sanitizeFileName (before ++ str " - " ++ after) =
          toLowerCase (collapseSpaces (trimStart (stripExtended
                         (normalizeDashes (trimEnd before)))))
          ++ [emDash]
          ++ toLowerCase (collapseSpaces (trimEnd (stripExtended
                            (normalizeDashes (trimStart after)))))
        /\ ~ In hyphen (normalizeDashes (before ++ str " - " ++ after)))
  /\ (forall a w k : jsstring,
        (forall a' c, a = a' ++ [c] -> isSpace c = false) ->
        w <> [] -> blank w ->
        (forall c k', k = c :: k' -> isSpace c = false) ->
        collapseSpaces (a ++ w ++ k)
        = collapseSpaces a ++ hyphen :: collapseSpaces k)
  /\ (forall title c, In c (sanitizeFileName title) ->
        (isWord c = true /\ inRange 65 90 c = false)
        \/ c = hyphen \/ c = emDash).
Proof.
  intros Bl Bt G. split; [|split; [|split]].
  - now apply sanitizeFileName_phrase.
  - intros before after. split.
    + change (before ++ str " - " ++ after)
        with (before ++ [32%N] ++ hyphen :: 32%N :: after).
      rewrite app_assoc, sanitizeFileName_hyphen.
      rewrite trimEnd_app_space by reflexivity. reflexivity.
    + apply normalizeDashes_no_hyphen.
  - exact collapseSpaces_run.
  - exact sanitizeFileName_alphabet.
Qed.

Lemma sanitizeFileName_em_dash_witness :
  sanitizeFileName (str " My  Post! - Title-2 ")
  = str "my-post" ++ [emDash] ++ str "title" ++ [emDash] ++ str "2".
Proof.
  assert (Bl : blank (str " ")) by reflexivity.
  assert (G : goodPhrase (str "My")
                [(Spaces (str "  "), str "Post!");
                 (Dash (str " ") (str " "), str "Title");
                 (Dash [] [], str "2")]).
  { split; [now apply goodWord_check|].
    apply Forall_cons; [split; [split; [discriminate | reflexivity]
                               | now apply goodWord_check]|].
    apply Forall_cons; [split; [split; reflexivity
                               | now apply goodWord_check]|].
    apply Forall_cons; [split; [split; reflexivity
                               | now apply goodWord_check]|].
    apply Forall_nil. }
  exact (proj1 (sanitizeFileName_em_dash (str " ") (str "My") (str " ") _
                  Bl Bl G)).
Defined.
